(** * session-pouchdb-store: the write-through session cache of [src/lib/store.js]

    A shallow embedding of the [SessionStore] class: the in-memory cache
    [this.sessions], the operations of the express-session store contract
    ([get], [set], [touch], [destroy], [all], [clear], [length]), the
    change-feed handler registered by [_subscribe] and the scavenge tick
    registered by [_timers].

    Modelling conventions.
    - A JavaScript object is a finite map from property names to values
      ([gmap string jsval]); reading a missing property yields [undefined].
    - An [async] method is run to completion: an [await] is the sequential
      bind of a state monad over the store instance, a rejected promise is
      the [inl] of a sum, [try]/[catch] is a match on it.
    - Every call to the PouchDB client and every invocation of a completion
      callback is recorded, in order, in a ghost [log] of the instance.
    - [Date.now()] is an explicit argument of the operation that reads it.
    - Objects are passed by value.  The one object whose sharing is
      observable in what follows, the module-level [DEF_OPTS], is kept in a
      module state and instances hold a reference to it; where [touch]
      hands [set] the very object it has just put in the cache, the value
      semantics gives the same record ([assign_stamp_self]). *)

From stdpp Require Import base strings gmap list.
From Stdlib Require Import ZArith Lia.

(** ** JavaScript values *)

(** The values a session field can hold.  Numbers are the integers (all the
    numbers this code computes with are millisecond timestamps and periods)
    and [NaN]; an object-valued field (the session's [cookie]) is an opaque
    reference. *)
Inductive jsval :=
  | VUndefined
  | VNull
  | VBool (b : bool)
  | VNum (n : Z)
  | VNaN
  | VStr (s : string)
  | VObj (ref : nat).

#[global] Instance jsval_eq_dec : EqDecision jsval.
Proof. solve_decision. Defined.

(** What the host's [ToNumber] makes of a string or of an object; the code
    never depends on it, so it is left to the host. [None] is [NaN]. *)
Class JSHost := {
  StringToNumber : string → option Z;
  ObjectToNumber : nat → option Z;
}.

(** [ToBoolean]: the falsy values are [undefined], [null], [false], [0],
    [NaN] and the empty string. *)
Definition truthy (v : jsval) : bool :=
  match v with
  | VUndefined | VNull | VNaN => false
  | VBool b => b
  | VNum n => negb (n =? 0)%Z
  | VStr s => negb (String.eqb s "")
  | VObj _ => true
  end.

(** [ToNumber], with [None] for [NaN]. *)
Definition ToNumber `{host : JSHost} (v : jsval) : option Z :=
  match v with
  | VUndefined | VNaN => None
  | VNull => Some 0%Z
  | VBool b => Some (if b then 1 else 0)%Z
  | VNum n => Some n
  | VStr s => StringToNumber s
  | VObj r => ObjectToNumber r
  end.

(** [a - b] on numbers: [NaN] as soon as one operand is. *)
Definition js_sub `{host : JSHost} (a b : jsval) : option Z :=
  match ToNumber a, ToNumber b with
  | Some x, Some y => Some (x - y)%Z
  | _, _ => None
  end.

(** [x > v] for a number [x]: false as soon as one side is [NaN]. *)
Definition js_gt `{host : JSHost} (x : option Z) (v : jsval) : bool :=
  match x, ToNumber v with
  | Some a, Some b => (b <? a)%Z
  | _, _ => false
  end.

(** ** Objects *)

Abbreviation obj := (gmap string jsval).

(** [o.k] *)
Definition getprop (o : obj) (k : string) : jsval := default VUndefined (o !! k).

(** [Object.assign(target, source)]: every own property of [source] is
    written to [target]; the result is the (mutated) target. *)
Definition assign (target source : obj) : obj := source ∪ target.

(** ** Errors, rows, the ghost log *)

(** A rejection reason: PouchDB errors carry a numeric [status], a
    [TypeError] raised by the host has none. *)
Record js_error := mkError { status : option Z; name : string }.

#[global] Instance js_error_eq_dec : EqDecision js_error.
Proof. solve_decision. Defined.

Definition TypeError : js_error := mkError None "TypeError".

(** [err.status === 404] *)
Definition is_404 (e : js_error) : bool :=
  match status e with
  | Some s => (s =? 404)%Z
  | None => false
  end.

(** A row of [allDocs]: [row.id] and, with [include_docs], [row.doc]. *)
Record row := mkRow { row_id : string; row_doc : option obj }.

(** The options objects passed to [allDocs] and [get]. *)
Record alldocs_opts := mkAllDocsOpts { include_docs : bool; attachments : bool }.

(** The calls the store makes to its PouchDB instance. *)
Inductive pouch_call :=
  | Get (sid : string) (with_attachments : bool)
  | Put (doc : obj)
  | Remove (doc : option obj)
  | AllDocs (opts : alldocs_opts)
  | BulkDocs (docs : list obj).

(** The second argument of a completion callback. *)
Inductive cb_value :=
  | NoValue
  | Doc (d : obj)
  | Docs (ds : list (option obj))
  | Count (n : nat).

(** Ghost events: a PouchDB call with the error it was rejected with, if
    any, and an invocation of the caller's callback [callback(err, value)]. *)
Inductive event :=
  | PouchCall (c : pouch_call) (failure : option js_error)
  | Callback (err : option js_error) (value : cb_value).

Definition is_callback (e : event) : bool :=
  match e with Callback _ _ => true | PouchCall _ _ => false end.

(** A call that writes to the persistent store. *)
Definition is_store_write (e : event) : bool :=
  match e with
  | PouchCall (Put _) _ | PouchCall (Remove _) _ | PouchCall (BulkDocs _) _ => true
  | _ => false
  end.

(** The callback invocations of a log, and the number of its store writes. *)
Definition callbacks (l : list event) : list event := List.filter is_callback l.
Definition store_writes (l : list event) : nat := length (List.filter is_store_write l).

(** ** The PouchDB client *)

(** Modelled from the spec: the Store Adapter capability contract (the
    PouchDB client [this.pouch], an external library the source only calls):
    [get], [put], [remove], [allDocs] and [bulkDocs], each resolving to a
    value or rejecting with an error, over a database state [DB].  [remove]
    receives whatever [destroy] hands it, which can be [undefined]. *)
Class Pouch (DB : Type) := {
  pouch_get : string → bool → DB → (js_error + obj) * DB;
  pouch_put : obj → DB → (js_error + unit) * DB;
  pouch_remove : option obj → DB → (js_error + unit) * DB;
  pouch_allDocs : alldocs_opts → DB → (js_error + list row) * DB;
  pouch_bulkDocs : list obj → DB → (js_error + unit) * DB;
}.

(** ** Module state *)

(** The module-level [DEF_OPTS] object.  [Object.assign(DEF_OPTS, options)]
    returns its target, so [this.options] of every instance is this very
    object: an instance holds a reference, the object lives here. *)
Record module_state := mkModule { DEF_OPTS : obj }.

Definition initial_DEF_OPTS : obj :=
  {[ "maxIdle" := VNum (5 * 60 * 1000); "scavenge" := VNum 1000; "purge" := VNum (5 * 60 * 1000) ]}.

Definition initial_module : module_state := mkModule initial_DEF_OPTS.

Inductive opts_ref := Ref_DEF_OPTS.

Definition deref (m : module_state) (r : opts_ref) : obj :=
  match r with Ref_DEF_OPTS => DEF_OPTS m end.

(** ** The store instance and its operations *)

Section Instance.
Context {DB : Type}.

(** The fields of a [SessionStore], the period its interval timer was
    started with, and the ghost log. *)
Record SessionStore := mkStore {
  pouch : DB;
  sessions : gmap string obj;
  options : opts_ref;
  timer_period : jsval;
  log : list event;
}.

(** Computations over the instance. *)
Definition M (A : Type) : Type := SessionStore → A * SessionStore.

Definition ret {A} (a : A) : M A := λ st, (a, st).
Definition bind {A B} (c : M A) (k : A → M B) : M B :=
  λ st, let '(a, st') := c st in k a st'.

Definition read_sessions : M (gmap string obj) := λ st, (sessions st, st).

Definition write_sessions (f : gmap string obj → gmap string obj) : M unit :=
  λ st, (tt, mkStore (pouch st) (f (sessions st)) (options st) (timer_period st) (log st)).

Definition emit (e : event) : M unit :=
  λ st, (tt, mkStore (pouch st) (sessions st) (options st) (timer_period st) (log st ++ [e])).

Definition failure_of {A} (r : js_error + A) : option js_error :=
  match r with inl e => Some e | inr _ => None end.

(** [await this.pouch.<call>]: run the client, record the call. *)
Definition await {A} (c : pouch_call) (f : DB → (js_error + A) * DB) : M (js_error + A) :=
  λ st, let '(r, db) := f (pouch st) in
        (r, mkStore db (sessions st) (options st) (timer_period st)
                    (log st ++ [PouchCall c (failure_of r)])).

(** The instance a computation leaves behind. *)
Definition exec {A} (c : M A) (st : SessionStore) : SessionStore := (c st).2.

(** A completion callback.  Callbacks are taken not to throw. *)
Definition callback := option js_error → cb_value → M unit.

(** The caller's callback, as far as the store is concerned: it is invoked. *)
Definition report : callback := λ err v, emit (Callback err v).

End Instance.

Arguments SessionStore : clear implicits.
Arguments M : clear implicits.
Arguments callback : clear implicits.

Notation "'let*' x ':=' c 'in' k" := (bind c (λ x, k))
  (at level 10, x name, c at level 100, k at level 200).
Notation "c ;;; k" := (bind c (λ _, k))
  (at level 100, k at level 200, right associativity).

(** ** The class [SessionStore] *)

Module Store.
Section Methods.
Context `{host : JSHost} {DB : Type} `{adapter : Pouch DB}.

(** [constructor(pouchDB, options = {})] (store.js:42-49); [db] is
    [instance(pouchDB)].  The cache starts empty, [DEF_OPTS] receives the
    options, the interval timer is started with the [scavenge] it then
    holds. *)
Definition new_SessionStore (db : DB) (opts : obj) (m : module_state)
  : SessionStore DB * module_state :=
  let m' := mkModule (assign (DEF_OPTS m) opts) in
  (mkStore db ∅ Ref_DEF_OPTS (getprop (deref m' Ref_DEF_OPTS) "scavenge") [], m').

(** [now - sess.$ts > opt.maxIdle] (store.js:62) *)
Definition idle (now : Z) (maxIdle : jsval) (sess : obj) : bool :=
  js_gt (js_sub (VNum now) (getprop sess "$ts")) maxIdle.

(** One iteration of the [forEach] of the scavenge tick.  Every visited
    key is still in the cache: an iteration deletes its own key only. *)
Definition scavenge_step (now : Z) (maxIdle : jsval)
    (s : gmap string obj) (sid : string) : gmap string obj :=
  match s !! sid with
  | Some sess => if idle now maxIdle sess then delete sid s else s
  | None => s
  end.

(** The interval callback of [_timers] (store.js:58-65):
    [Object.keys(this.sessions)] is taken once, then every key is visited.
    [opt] is [this.options], the shared object, read at the tick. *)
Definition scavenge_tick (m : module_state) (now : Z) : M DB unit :=
  λ st,
    let opt := deref m (options st) in
    write_sessions
      (λ s, foldl (scavenge_step now (getprop opt "maxIdle")) s (map_to_list s).*1) st.

(** A change of the feed, [include_docs: true]: [change.doc] is the
    document, whose [_id] is the string [change.id]. *)
Record change := mkChange { change_id : string; change_fields : obj }.

Definition change_doc (c : change) : obj :=
  <["_id" := VStr (change_id c)]> (change_fields c).

(** The ['change'] handler of [_subscribe] (store.js:81-85); a cached
    record and [change.doc] are objects, hence truthy. *)
Definition on_change (c : change) : M DB unit :=
  let id := change_id c in
  let* s := read_sessions in
  match s !! id with
  | Some old => write_sessions (λ s, <[id := assign old (change_doc c)]> s)
  | None => ret tt
  end.

(** [all(callback)] (store.js:98-109) *)
Definition all (cb : callback DB) : M DB unit :=
  let* r := await (AllDocs (mkAllDocsOpts true true))
                  (pouch_allDocs (mkAllDocsOpts true true)) in
  match r with
  | inr rows => cb None (Docs (row_doc <$> rows))
  | inl e => cb (Some e) NoValue
  end.

(** [get(sid, callback)] (store.js:173-187); a cached record is an
    object, hence truthy.  [this.sessions[sid]] is read as an own property
    of the cache: exact for identifiers that are not property names of
    [Object.prototype]. *)
Definition get (sid : string) (cb : callback DB) : M DB unit :=
  let* s := read_sessions in
  match s !! sid with
  | Some sess => cb None (Doc sess)
  | None =>
      let* r := await (Get sid true) (pouch_get sid true) in
      match r with
      | inr sess => cb None (Doc sess)
      | inl err => if is_404 err then cb None NoValue else cb (Some err) NoValue
      end
  end.

(** The [doc] parameter of the callback [destroy] passes to [get]. *)
Definition doc_of (v : cb_value) : option obj :=
  match v with Doc d => Some d | _ => None end.

(** [destroy(sid, callback)] (store.js:116-129); the lookup is that of
    [get]. *)
Definition destroy (sid : string) (cb : callback DB) : M DB unit :=
  get sid (λ err v,
    match err with
    | Some e => cb (Some e) NoValue
    | None =>
        write_sessions (delete sid) ;;;
        let* r := await (Remove (doc_of v)) (pouch_remove (doc_of v)) in
        match r with
        | inr _ => cb None NoValue
        | inl e => cb (Some e) NoValue
        end
    end).

(** [{_id: row.id, _rev: row.doc._rev, _deleted: true}] *)
Definition tombstone_doc (id : string) (doc : obj) : obj :=
  {[ "_id" := VStr id; "_rev" := getprop doc "_rev"; "_deleted" := VBool true ]}.

(** The tombstone [clear] builds for a row; [row.doc._rev] throws when
    [row.doc] is [undefined]. *)
Definition tombstone (r : row) : js_error + obj :=
  match row_doc r with
  | Some d => inr (tombstone_doc (row_id r) d)
  | None => inl TypeError
  end.

Fixpoint tombstones (rows : list row) : js_error + list obj :=
  match rows with
  | [] => inr []
  | r :: rows' =>
      match tombstone r with
      | inl e => inl e
      | inr t =>
          match tombstones rows' with
          | inl e => inl e
          | inr ts => inr (t :: ts)
          end
      end
  end.

(** [clear(callback)] (store.js:135-151); the cache is not touched. *)
Definition clear (cb : callback DB) : M DB unit :=
  let* r := await (AllDocs (mkAllDocsOpts true false))
                  (pouch_allDocs (mkAllDocsOpts true false)) in
  match r with
  | inl e => cb (Some e) NoValue
  | inr rows =>
      match tombstones rows with
      | inl e => cb (Some e) NoValue
      | inr ts =>
          let* r' := await (BulkDocs ts) (pouch_bulkDocs ts) in
          match r' with
          | inr _ => cb None NoValue
          | inl e => cb (Some e) NoValue
          end
      end
  end.

(** [length(callback)] (store.js:157-166) *)
Definition length (cb : callback DB) : M DB unit :=
  let* r := await (AllDocs (mkAllDocsOpts false false))
                  (pouch_allDocs (mkAllDocsOpts false false)) in
  match r with
  | inr rows => cb None (Count (List.length rows))
  | inl e => cb (Some e) NoValue
  end.

(** The record [set] stores (store.js:196-197): [_id] defaulted to [sid]
    when falsy, [$ts] stamped. *)
Definition stamp (sid : string) (session : obj) (now : Z) : obj :=
  let session := if truthy (getprop session "_id") then session
                 else <["_id" := VStr sid]> session in
  <["$ts" := VNum now]> session.

(** [Object.assign(this.sessions[sid] || {}, session)] (store.js:199) *)
Definition merge (s : gmap string obj) (sid : string) (session : obj) : obj :=
  assign (default ∅ (s !! sid)) session.

(** [set(sid, session, callback)] (store.js:195-205), with [now] the value
    of [Date.now()].  The cache is assigned first, then the cached record
    is [put]; the result of [put] is not used.  The assignment creates or
    updates the own property [sid] of the cache: exact for identifiers
    that are not property names of [Object.prototype].  [session] is
    stamped in place by the source; here it is a value, so what the stamp
    does to other holders of that object is not represented. *)
Definition set (sid : string) (session : obj) (now : Z) (cb : callback DB) : M DB unit :=
  let session := stamp sid session now in
  write_sessions (λ s, <[sid := merge s sid session]> s) ;;;
  let* s := read_sessions in
  let doc := default ∅ (s !! sid) in
  let* r := await (Put doc) (pouch_put doc) in
  match r with
  | inr _ => cb None NoValue
  | inl err => cb (Some err) NoValue
  end.

(** [this.sessions[sid] || (await this.pouch.get(sid))] (store.js:215),
    read as an own property of the cache, as in [get]. *)
Definition existing (sid : string) : M DB (js_error + obj) :=
  let* s := read_sessions in
  match s !! sid with
  | Some o => ret (inr o)
  | None => await (Get sid false) (pouch_get sid false)
  end.

(** [touch(sid, session, callback)] (store.js:213-230); [now] is the value
    of [Date.now()] in [touch], [now_set] its value in the [set] that
    [touch] calls.  [session] is not read.  [set] is given [oldSession] and
    the caller's callback, and the callback is invoked again after it. *)
Definition touch (sid : string) (session : obj) (now now_set : Z) (cb : callback DB) : M DB unit :=
  let* r := existing sid in
  match r with
  | inl e => cb (Some e) NoValue
  | inr oldSession =>
      if js_gt (js_sub (VNum now) (getprop oldSession "$ts")) (VNum 1000)
      then
        write_sessions (λ s, <[sid := oldSession]> s) ;;;
        set sid oldSession now_set cb ;;;
        cb None NoValue
      else cb None NoValue
  end.

End Methods.
End Store.

(** ** An in-memory PouchDB *)

Module MemPouch.

(** Modelled from the spec: a database behind the Store Adapter contract
    (PouchDB itself is an external library): documents keyed by [_id], each
    carrying the revision token [_rev] of its last write, an opaque value
    (here a counter); a write must present the current token (optimistic
    concurrency) and is otherwise rejected with a 409 conflict; reading or
    deleting a missing document is a 404.  [faults] scripts transport
    failures: each call consumes one entry, and is rejected with the error
    the entry holds, if any. *)
Record db := mkDb {
  docs : gmap string obj;
  next_rev : Z;
  faults : list (option js_error);
}.

Definition not_found : js_error := mkError (Some 404%Z) "not_found".
Definition conflict : js_error := mkError (Some 409%Z) "conflict".
Definition missing_id : js_error := mkError (Some 412%Z) "missing_id".
Definition unavailable : js_error := mkError (Some 500%Z) "unavailable".

Definition next_fault (d : db) : option js_error * db :=
  match faults d with
  | [] => (None, d)
  | f :: fs => (f, mkDb (docs d) (next_rev d) fs)
  end.

(** Modelled from the spec: one document write, an update, a creation or,
    with [_deleted], a deletion (a tombstone); the revision check of the
    contract's [putDocument] and [removeDocument]. *)
Definition write (doc : obj) (d : db) : (js_error + unit) * db :=
  match getprop doc "_id" with
  | VStr id =>
      let stored := <["_rev" := VNum (next_rev d)]> doc in
      match docs d !! id with
      | Some cur =>
          if decide (getprop doc "_rev" = getprop cur "_rev") then
            if truthy (getprop doc "_deleted")
            then (inr tt, mkDb (delete id (docs d)) (next_rev d + 1) (faults d))
            else (inr tt, mkDb (<[id := stored]> (docs d)) (next_rev d + 1) (faults d))
          else (inl conflict, d)
      | None =>
          if truthy (getprop doc "_deleted") then (inl not_found, d)
          else if decide (getprop doc "_rev" = VUndefined)
          then (inr tt, mkDb (<[id := stored]> (docs d)) (next_rev d + 1) (faults d))
          else (inl conflict, d)
      end
  | _ => (inl missing_id, d)
  end.

(** A call that can be hit by a transport failure. *)
Definition guarded {A} (f : db → (js_error + A) * db) (d : db) : (js_error + A) * db :=
  let '(flt, d') := next_fault d in
  match flt with
  | Some e => (inl e, d')
  | None => f d'
  end.

(** Modelled from the spec: [getDocument], [putDocument],
    [removeDocument], [listAll] and [bulkWrite] of the contract.  [remove]
    reads [doc._id] of what it is given, a [TypeError] on [undefined]. *)
Definition get (sid : string) (with_attachments : bool) : db → (js_error + obj) * db :=
  guarded (λ d, match docs d !! sid with
                | Some doc => (inr doc, d)
                | None => (inl not_found, d)
                end).

Definition put (doc : obj) : db → (js_error + unit) * db :=
  guarded (write doc).

Definition remove (doc : option obj) : db → (js_error + unit) * db :=
  guarded (λ d, match doc with
                | Some o =>
                    write {[ "_id" := getprop o "_id"; "_rev" := getprop o "_rev";
                             "_deleted" := VBool true ]} d
                | None => (inl TypeError, d)
                end).

Definition allDocs (opts : alldocs_opts) : db → (js_error + list row) * db :=
  guarded (λ d, (inr ((λ kv, mkRow kv.1 (if include_docs opts then Some kv.2 else None))
                        <$> map_to_list (docs d)), d)).

(** Every document of the batch is written in turn; a rejected item does
    not reject the batch. *)
Definition bulkDocs (ds : list obj) : db → (js_error + unit) * db :=
  guarded (λ d, (inr tt, foldl (λ d doc, (write doc d).2) d ds)).

#[global] Instance pouch : Pouch db := {
  pouch_get := get;
  pouch_put := put;
  pouch_remove := remove;
  pouch_allDocs := allDocs;
  pouch_bulkDocs := bulkDocs;
}.

Definition empty : db := mkDb ∅ 1 [].

End MemPouch.

(** ** Concrete runs *)

Module Examples.

(** A host whose [ToNumber] sends strings and objects to [NaN]; the runs
    below never coerce either. *)
Definition host : JSHost :=
  {| StringToNumber := λ _, None; ObjectToNumber := λ _, None |}.

(** A freshly constructed store over a database [d]. *)
Definition fresh (d : MemPouch.db) : SessionStore MemPouch.db :=
  (Store.new_SessionStore d ∅ initial_module).1.

Definition alice : obj := {[ "user" := VStr "alice" ]}.
Definition bob : obj := {[ "user" := VStr "bob" ]}.

(** A store whose database is unreachable for the next call. *)
Definition offline : SessionStore MemPouch.db :=
  fresh (MemPouch.mkDb ∅ 1 [Some MemPouch.unavailable]).

(** A store after [set("abc", {user: "alice"})] at time 1000. *)
Definition with_abc : SessionStore MemPouch.db :=
  exec (Store.set "abc" alice 1000 report) (fresh MemPouch.empty).



(** A store that holds ["abc"], last touched at 1000, and ["xyz"], last
    touched at 400000, in its cache. *)
Definition two_sessions : SessionStore MemPouch.db :=
  exec (Store.set "xyz" bob 400000 report) with_abc.

(** Another process updated ["abc"]; another process wrote ["zzz"]. *)
Definition update_abc : Store.change :=
  Store.mkChange "abc" {[ "_rev" := VNum 2; "user" := VStr "bob" ]}.

Definition update_zzz : Store.change :=
  Store.mkChange "zzz" {[ "_rev" := VNum 1; "user" := VStr "carol" ]}.

(** Options given to a first and to a second constructor. *)
Definition one_minute : obj := {[ "maxIdle" := VNum 60000 ]}.
Definition fast_sweep : obj := {[ "scavenge" := VNum 500 ]}.

End Examples.

(** ** Identifiers that name a property of [Object.prototype] *)

(** [this.sessions] is a plain object ([{}], store.js:45): reading
    [this.sessions[sid]] goes through [Object.prototype] when the cache has
    no own property [sid], and assigning [this.sessions["__proto__"]] sets
    a prototype instead of creating a property.  These are the property
    names of [Object.prototype], which is taken as the host provides it
    (nothing has added a property to it); for every other identifier
    [this.sessions[sid]] is the own property or [undefined], which is how
    the operations above read it. *)
Definition inherited_name (sid : string) : bool :=
  bool_decide (sid ∈ ["__proto__"; "constructor"; "hasOwnProperty"; "isPrototypeOf";
                      "propertyIsEnumerable"; "toLocaleString"; "toString"; "valueOf";
                      "__defineGetter__"; "__defineSetter__";
                      "__lookupGetter__"; "__lookupSetter__"]).

(** ** An invariant of the cache *)

(** Every cached record carries a number in [$ts]. *)
Definition stamped (s : gmap string obj) : Prop :=
  ∀ sid o, s !! sid = Some o → ∃ t : Z, o !! "$ts" = Some (VNum t).

(** ** More concrete inputs *)

Module Scenarios.

(** Options that set [maxIdle] to [undefined], and the module state after
    a store was constructed with them. *)
Definition no_idle : obj := {[ "maxIdle" := VUndefined ]}.

Definition module_without_idle : module_state :=
  (Store.new_SessionStore MemPouch.empty no_idle initial_module).2.

(** A change that overwrites [$ts] of ["abc"] with a string that is not a
    number. *)
Definition dateless_abc : Store.change :=
  Store.mkChange "abc" {[ "_rev" := VNum 2; "$ts" := VStr "yesterday" ]}.

(** The deletion of ["abc"] by another process, as the feed reports it. *)
Definition deleted_abc : Store.change :=
  Store.mkChange "abc" {[ "_rev" := VNum 2; "_deleted" := VBool true ]}.

Definition carol : obj := {[ "user" := VStr "carol" ]}.

(** Options of a second store that shorten [maxIdle] to two seconds. *)
Definition two_seconds : obj := {[ "maxIdle" := VNum 2000 ]}.

End Scenarios.

(** * Properties *)

(** ** Objects *)

Lemma lookup_assign (target source : obj) (k : string) :
  assign target source !! k =
  match source !! k with Some v => Some v | None => target !! k end.
Proof.
  unfold assign. destruct (source !! k) as [v|] eqn:E.
  - by apply lookup_union_Some_l.
  - by rewrite lookup_union_r.
Qed.

Lemma getprop_insert_eq (o : obj) (k : string) (v : jsval) :
  getprop (<[k := v]> o) k = v.
Proof. unfold getprop. by rewrite lookup_insert_eq. Qed.

Lemma getprop_insert_ne (o : obj) (k k' : string) (v : jsval) :
  k ≠ k' → getprop (<[k := v]> o) k' = getprop o k'.
Proof. intros. unfold getprop. by rewrite lookup_insert_ne. Qed.

Lemma getprop_assign (target source : obj) (k : string) :
  getprop (assign target source) k =
  match source !! k with Some v => v | None => getprop target k end.
Proof. unfold getprop. rewrite lookup_assign. by destruct (source !! k). Qed.

(** ** The record [set] stores *)

Lemma stamp_ts sid (session : obj) (now : Z) :
  Store.stamp sid session now !! "$ts" = Some (VNum now).
Proof. unfold Store.stamp. by rewrite lookup_insert_eq. Qed.

Lemma stamp_lookup_other sid (session : obj) (now : Z) (k : string) :
  k ≠ "$ts" → k ≠ "_id" →
  Store.stamp sid session now !! k = session !! k.
Proof.
  intros Hts Hid. unfold Store.stamp. rewrite lookup_insert_ne by done.
  destruct (truthy _); [done|]. by rewrite lookup_insert_ne.
Qed.

Lemma stamp_id sid (session : obj) (now : Z) :
  Store.stamp sid session now !! "_id" =
  if truthy (getprop session "_id") then session !! "_id" else Some (VStr sid).
Proof.
  unfold Store.stamp. rewrite lookup_insert_ne by done.
  destruct (truthy _); [done|]. by rewrite lookup_insert_eq.
Qed.

Lemma stamp_keeps_keys sid (session : obj) (now : Z) (k : string) :
  is_Some (session !! k) → is_Some (Store.stamp sid session now !! k).
Proof.
  intros Hk. unfold Store.stamp.
  destruct (decide (k = "$ts")) as [->|Hts]; [by rewrite lookup_insert_eq|].
  rewrite lookup_insert_ne by done.
  destruct (truthy _); [done|].
  destruct (decide (k = "_id")) as [->|Hid]; [by rewrite lookup_insert_eq|].
  by rewrite lookup_insert_ne.
Qed.

(** Storing a record over itself: [Object.assign(x, x)] after [x] was
    stamped in place. *)
Lemma assign_stamp_self sid (old : obj) (now : Z) :
  assign old (Store.stamp sid old now) = Store.stamp sid old now.
Proof.
  apply map_eq. intros k. rewrite lookup_assign.
  destruct (Store.stamp sid old now !! k) as [v|] eqn:E; [done|].
  destruct (old !! k) as [w|] eqn:Ek; [|done].
  destruct (stamp_keeps_keys sid old now k) as [v Hv]; [by rewrite Ek|].
  congruence.
Qed.

(** ** Comparisons on numbers *)

Lemma js_gt_sub_num `{host : JSHost} (now ts bound : Z) :
  js_gt (js_sub (VNum now) (VNum ts)) (VNum bound) = (bound <? now - ts)%Z.
Proof. reflexivity. Qed.

(** ** The scavenge loop *)

Section Scavenge.
Context `{host : JSHost}.

Lemma scavenge_step_lookup now maxIdle (s : gmap string obj) sid k :
  Store.scavenge_step now maxIdle s sid !! k =
  if decide (sid = k)
  then match s !! k with
       | Some sess => if Store.idle now maxIdle sess then None else Some sess
       | None => None
       end
  else s !! k.
Proof.
  unfold Store.scavenge_step. case_decide as Hk.
  - subst k. destruct (s !! sid) as [sess|] eqn:E; [|by rewrite E].
    destruct (Store.idle _ _ _); [by rewrite lookup_delete_eq | by rewrite E].
  - destruct (s !! sid) as [sess|]; [|done].
    destruct (Store.idle _ _ _); [by rewrite lookup_delete_ne | done].
Qed.

Lemma scavenge_foldl_lookup now maxIdle (keys : list string) :
  ∀ (s : gmap string obj) k,
  NoDup keys →
  foldl (Store.scavenge_step now maxIdle) s keys !! k =
  if decide (k ∈ keys)
  then match s !! k with
       | Some sess => if Store.idle now maxIdle sess then None else Some sess
       | None => None
       end
  else s !! k.
Proof.
  induction keys as [|sid keys IH]; intros s k Hnd.
  - case_decide as Hin; [by apply elem_of_nil in Hin | done].
  - apply NoDup_cons in Hnd as [Hsid Hnd]. cbn [foldl].
    rewrite IH by done. rewrite scavenge_step_lookup.
    repeat case_decide; subst; try done;
    rewrite elem_of_cons in *; intuition congruence.
Qed.

End Scavenge.

(** ** The store *)

Section Properties.
Context `{host : JSHost} {DB : Type} `{adapter : Pouch DB}.
Implicit Types (st : SessionStore DB) (sid : string) (m : module_state).

(** *** What each operation leaves behind *)

Lemma set_exec st sid (session : obj) (now : Z) :
  let doc := Store.merge (sessions st) sid (Store.stamp sid session now) in
  let r := pouch_put doc (pouch st) in
  exec (Store.set sid session now report) st =
  mkStore r.2 (<[sid := doc]> (sessions st)) (options st) (timer_period st)
          (log st ++ [PouchCall (Put doc) (failure_of r.1);
                      Callback (failure_of r.1) NoValue]).
Proof.
  unfold exec, Store.set, bind, read_sessions, write_sessions, await, report, emit.
  cbn. rewrite lookup_insert_eq. cbn.
  destruct (pouch_put _ (pouch st)) as [[e|u] db]; cbn; by rewrite <- app_assoc.
Qed.

Lemma get_exec_hit st sid (sess : obj) :
  sessions st !! sid = Some sess →
  exec (Store.get sid report) st =
  mkStore (pouch st) (sessions st) (options st) (timer_period st)
          (log st ++ [Callback None (Doc sess)]).
Proof.
  intros Hs. unfold exec, Store.get, bind, read_sessions, report, emit.
  cbn. by rewrite Hs.
Qed.

Lemma get_exec_miss st sid :
  sessions st !! sid = None →
  let r := pouch_get sid true (pouch st) in
  exec (Store.get sid report) st =
  mkStore r.2 (sessions st) (options st) (timer_period st)
          (log st ++ [PouchCall (Get sid true) (failure_of r.1);
                      match r.1 with
                      | inr sess => Callback None (Doc sess)
                      | inl e => if is_404 e then Callback None NoValue
                                 else Callback (Some e) NoValue
                      end]).
Proof.
  intros Hs. unfold exec, Store.get, bind, read_sessions, await, report, emit.
  cbn. rewrite Hs.
  destruct (pouch_get sid true (pouch st)) as [[e|sess] db]; cbn.
  - destruct (is_404 e); cbn; by rewrite <- app_assoc.
  - by rewrite <- app_assoc.
Qed.

Lemma destroy_exec_hit st sid (doc : obj) :
  sessions st !! sid = Some doc →
  let r := pouch_remove (Some doc) (pouch st) in
  exec (Store.destroy sid report) st =
  mkStore r.2 (delete sid (sessions st)) (options st) (timer_period st)
          (log st ++ [PouchCall (Remove (Some doc)) (failure_of r.1);
                      Callback (failure_of r.1) NoValue]).
Proof.
  intros Hs. unfold exec, Store.destroy, Store.get, bind, read_sessions,
    write_sessions, await, report, emit.
  cbn. rewrite Hs. cbn.
  destruct (pouch_remove (Some doc) (pouch st)) as [[e|u] db]; cbn;
    by rewrite <- app_assoc.
Qed.

Lemma destroy_exec_miss st sid :
  sessions st !! sid = None →
  let g := pouch_get sid true (pouch st) in
  exec (Store.destroy sid report) st =
  match g.1 with
  | inr doc =>
      let r := pouch_remove (Some doc) g.2 in
      mkStore r.2 (delete sid (sessions st)) (options st) (timer_period st)
              (log st ++ [PouchCall (Get sid true) None;
                          PouchCall (Remove (Some doc)) (failure_of r.1);
                          Callback (failure_of r.1) NoValue])
  | inl e =>
      if is_404 e then
        let r := pouch_remove None g.2 in
        mkStore r.2 (delete sid (sessions st)) (options st) (timer_period st)
                (log st ++ [PouchCall (Get sid true) (Some e);
                            PouchCall (Remove None) (failure_of r.1);
                            Callback (failure_of r.1) NoValue])
      else
        mkStore g.2 (sessions st) (options st) (timer_period st)
                (log st ++ [PouchCall (Get sid true) (Some e);
                            Callback (Some e) NoValue])
  end.
Proof.
  intros Hs. unfold exec, Store.destroy, Store.get, bind, read_sessions,
    write_sessions, await, report, emit.
  cbn. rewrite Hs.
  destruct (pouch_get sid true (pouch st)) as [[e|doc] db]; cbn.
  - destruct (is_404 e); cbn.
    + destruct (pouch_remove None db) as [[e'|u] db']; cbn;
        by rewrite <- !app_assoc.
    + by rewrite <- !app_assoc.
  - destruct (pouch_remove (Some doc) db) as [[e'|u] db']; cbn;
      by rewrite <- !app_assoc.
Qed.


Lemma existing_frame st sid (x : js_error + obj) (st1 : SessionStore DB) :
  Store.existing sid st = (x, st1) →
  sessions st1 = sessions st ∧
  options st1 = options st ∧
  timer_period st1 = timer_period st ∧
  ∃ l, log st1 = log st ++ l ∧ callbacks l = [] ∧ store_writes l = 0.
Proof.
  unfold Store.existing, bind, read_sessions, ret, await. cbn.
  destruct (sessions st !! sid) as [o|]; cbn.
  - intros [= <- <-]. repeat split. exists []. by rewrite app_nil_r.
  - destruct (pouch_get sid false (pouch st)) as [r db]; cbn.
    intros [= <- <-]. repeat split. eauto.
Qed.

Lemma touch_exec st sid (session : obj) (now now_set : Z)
    (x : js_error + obj) (st1 : SessionStore DB) :
  Store.existing sid st = (x, st1) →
  exec (Store.touch sid session now now_set report) st =
  match x with
  | inl e => exec (report (Some e) NoValue) st1
  | inr old =>
      if js_gt (js_sub (VNum now) (getprop old "$ts")) (VNum 1000)
      then exec (report None NoValue)
             (exec (Store.set sid old now_set report)
                (exec (write_sessions (λ s, <[sid := old]> s)) st1))
      else exec (report None NoValue) st1
  end.
Proof.
  intros Hx. unfold exec, Store.touch, bind. rewrite Hx.
  destruct x as [e|old]; [done|].
  destruct (js_gt _ _); [|done].
  destruct (write_sessions _ st1) as [u st2]; cbn [snd].
  by destruct (Store.set sid old now_set report st2).
Qed.

(** A fresh record found by [touch]: the callback, nothing else. *)
Lemma touch_exec_fresh st sid (session old : obj) (now now_set : Z)
    (st1 : SessionStore DB) :
  Store.existing sid st = (inr old, st1) →
  js_gt (js_sub (VNum now) (getprop old "$ts")) (VNum 1000) = false →
  exec (Store.touch sid session now now_set report) st =
  mkStore (pouch st1) (sessions st) (options st) (timer_period st)
          (log st1 ++ [Callback None NoValue]).
Proof.
  intros Hx Hgt. rewrite (touch_exec _ _ _ _ _ _ _ Hx), Hgt.
  destruct (existing_frame _ _ _ _ Hx) as (Hs & Ho & Ht & _).
  unfold exec, report, emit. cbn. by rewrite Hs, Ho, Ht.
Qed.

(** A stale record found by [touch] goes through [set] unchanged but for
    its stamp. *)
Lemma touch_exec_stale st sid (session old : obj) (now now_set : Z)
    (st1 : SessionStore DB) :
  Store.existing sid st = (inr old, st1) →
  js_gt (js_sub (VNum now) (getprop old "$ts")) (VNum 1000) = true →
  let doc := Store.stamp sid old now_set in
  let r := pouch_put doc (pouch st1) in
  exec (Store.touch sid session now now_set report) st =
  mkStore r.2 (<[sid := doc]> (sessions st)) (options st) (timer_period st)
          (log st1 ++ [PouchCall (Put doc) (failure_of r.1);
                       Callback (failure_of r.1) NoValue;
                       Callback None NoValue]).
Proof.
  intros Hx Hgt doc r. rewrite (touch_exec _ _ _ _ _ _ _ Hx), Hgt.
  destruct (existing_frame _ _ _ _ Hx) as (Hs & Ho & Ht & _).
  rewrite set_exec. unfold exec, write_sessions, report, emit. cbn.
  unfold Store.merge. rewrite lookup_insert_eq. cbn.
  rewrite assign_stamp_self. fold doc. fold r.
  by rewrite insert_insert_eq, Hs, Ho, Ht, <- app_assoc.
Qed.

Lemma callbacks_app (l l' : list event) :
  callbacks (l ++ l') = callbacks l ++ callbacks l'.
Proof. apply List.filter_app. Qed.

Lemma store_writes_app (l l' : list event) :
  store_writes (l ++ l') = store_writes l + store_writes l'.
Proof. unfold store_writes. by rewrite List.filter_app, length_app. Qed.

(** C6: one scavenge tick at time [now] drops from the cache exactly the
    records for which [now - $ts > maxIdle] holds, with [maxIdle] read
    from the shared options at the tick; records within the threshold
    stay as they are; the database and the log of calls to it are
    untouched. *)
Theorem scavenge_tick_evicts_idle m st (now : Z) :
  let st' := exec (Store.scavenge_tick m now) st in
  let maxIdle := getprop (deref m (options st)) "maxIdle" in
  (∀ sid, sessions st' !! sid =
          match sessions st !! sid with
          | Some sess => if Store.idle now maxIdle sess then None else Some sess
          | None => None
          end) ∧
  (∀ sid sess (ts bound : Z),
      sessions st !! sid = Some sess →
      getprop sess "$ts" = VNum ts →
      maxIdle = VNum bound →
      ((bound < now - ts)%Z → sessions st' !! sid = None) ∧
      ((now - ts ≤ bound)%Z → sessions st' !! sid = Some sess)) ∧
  pouch st' = pouch st ∧
  log st' = log st.
Proof.
  intros st' maxIdle.
  assert (Hlook : ∀ sid, sessions st' !! sid =
            match sessions st !! sid with
            | Some sess => if Store.idle now maxIdle sess then None else Some sess
            | None => None
            end).
  { intros sid. subst st' maxIdle.
    unfold exec, Store.scavenge_tick, write_sessions. cbn [snd sessions].
    rewrite scavenge_foldl_lookup by apply NoDup_fst_map_to_list.
    destruct (sessions st !! sid) as [sess|] eqn:E.
    - rewrite decide_True; [done|].
      apply list_elem_of_fmap. exists (sid, sess). split; [done|].
      by apply elem_of_map_to_list.
    - by case_decide. }
  split; [exact Hlook|]. split; [|done].
  intros sid sess ts bound Hs Hts Hb.
  specialize (Hlook sid). rewrite Hs in Hlook.
  unfold Store.idle in Hlook. rewrite Hts, Hb, js_gt_sub_num in Hlook.
  split; intros Hcmp.
  - apply Z.ltb_lt in Hcmp. by rewrite Hcmp in Hlook.
  - apply Z.ltb_ge in Hcmp. by rewrite Hcmp in Hlook.
Qed.

(** C7: a change event for an identifier the cache holds overwrites the
    cached record field by field with the event's document (incoming
    wins, fields the document lacks are kept), and a [get] that follows
    answers with the merged record from the cache; an event for an
    identifier the cache does not hold leaves the instance as it was. *)
Theorem change_event_merges_into_cache st (c : Store.change) :
  let st' := exec (Store.on_change c) st in
  let id := Store.change_id c in
  let doc := Store.change_doc c in
  (∀ old, sessions st !! id = Some old →
     ∃ merged,
       sessions st' = <[id := merged]> (sessions st) ∧
       (∀ k v, doc !! k = Some v → merged !! k = Some v) ∧
       (∀ k, doc !! k = None → merged !! k = old !! k) ∧
       log (exec (Store.get id report) st') = log st ++ [Callback None (Doc merged)]) ∧
  (sessions st !! id = None → st' = st) ∧
  pouch st' = pouch st ∧
  log st' = log st.
Proof.
  intros st' id doc. subst st'.
  unfold exec, Store.on_change, bind, read_sessions. fold id.
  destruct (sessions st !! id) as [old|] eqn:E.
  - split; [|split; [done|split; reflexivity]].
    intros ? [= <-]. exists (assign old doc). split; [reflexivity|].
    split; [|split].
    + intros k v Hk. by rewrite lookup_assign, Hk.
    + intros k Hk. by rewrite lookup_assign, Hk.
    + unfold Store.get, bind, read_sessions, write_sessions, report, emit.
      cbn. by rewrite lookup_insert_eq.
  - split; [done|]. split; [|done]. intros _. by destruct st.
Qed.


(** C10: the constructor writes the options it is given into the module's
    [DEF_OPTS] and keeps a reference to that object: after two stores are
    constructed in sequence, an option given to the first and omitted for
    the second is what the second store reads, and both stores read the
    same options object. *)
Theorem constructor_mutates_shared_defaults (db1 db2 : DB) (o1 o2 : obj) m0 :
  let r1 := Store.new_SessionStore db1 o1 m0 in
  let r2 := Store.new_SessionStore db2 o2 r1.2 in
  DEF_OPTS r1.2 = assign (DEF_OPTS m0) o1 ∧
  deref r2.2 (options r1.1) = deref r2.2 (options r2.1) ∧
  deref r2.2 (options r2.1) = DEF_OPTS r2.2 ∧
  ∀ k v, o1 !! k = Some v → o2 !! k = None →
         deref r2.2 (options r2.1) !! k = Some v.
Proof.
  cbn. repeat split.
  intros k v H1 H2. by rewrite !lookup_assign, H2, H1.
Qed.


(** C1, as the code has it, for an identifier that is not a property
    name of [Object.prototype]: [set] writes the merged record to the cache
    before it calls [put]; when [put] is rejected the error goes to the
    callback, once, and the cache keeps the merged record under [sid]. *)
Theorem set_failed_write_keeps_cache_update st sid (session : obj) (now : Z) (e : js_error) :
  inherited_name sid = false →
  let doc := Store.merge (sessions st) sid (Store.stamp sid session now) in
  (pouch_put doc (pouch st)).1 = inl e →
  let st' := exec (Store.set sid session now report) st in
  sessions st' !! sid = Some doc ∧
  log st' = log st ++ [PouchCall (Put doc) (Some e); Callback (Some e) NoValue].
Proof.
  intros _ doc Hput st'. subst st'. rewrite set_exec. fold doc. cbn.
  rewrite Hput. cbn. split; [by rewrite lookup_insert_eq | done].
Qed.

(** C4: after a [set] that signalled success, [get] answers from the
    cache with the merged record: it has every field name that was
    passed, with the value that was passed (for [_id], when that value is
    truthy; a falsy [_id] is replaced by [sid]), the fields of the
    previous cache entry that were not passed, and [$ts] equal to the time
    of the [set]. *)
Theorem get_after_set_returns_merged_record st sid (session : obj) (now : Z) :
  let st1 := exec (Store.set sid session now report) st in
  last (log st1) = Some (Callback None NoValue) →
  ∃ r : obj,
    log (exec (Store.get sid report) st1) = log st1 ++ [Callback None (Doc r)] ∧
    dom session ⊆ dom r ∧
    (∀ k v, session !! k = Some v → k ≠ "$ts" →
            (k = "_id" → truthy v = true) → r !! k = Some v) ∧
    (∀ k, session !! k = None → k ≠ "$ts" → k ≠ "_id" →
          r !! k = default ∅ (sessions st !! sid) !! k) ∧
    (truthy (getprop session "_id") = false → r !! "_id" = Some (VStr sid)) ∧
    r !! "$ts" = Some (VNum now).
Proof.
  intros st1 _. subst st1. rewrite set_exec.
  set (doc := Store.merge (sessions st) sid (Store.stamp sid session now)).
  exists doc. split.
  { rewrite (get_exec_hit _ sid doc); [done|]. cbn. by rewrite lookup_insert_eq. }
  unfold doc, Store.merge. split; [|split; [|split; [|split]]].
  - intros k Hk. apply elem_of_dom in Hk. apply elem_of_dom.
    rewrite lookup_assign.
    destruct (stamp_keeps_keys sid session now k Hk) as [v ->]. eauto.
  - intros k v Hk Hts Hid. rewrite lookup_assign.
    destruct (decide (k = "_id")) as [->|Hne].
    + rewrite stamp_id. unfold getprop. rewrite Hk. cbn. by rewrite Hid.
    + by rewrite stamp_lookup_other, Hk.
  - intros k Hk Hts Hid. by rewrite lookup_assign, stamp_lookup_other, Hk.
  - intros Hfalsy. by rewrite lookup_assign, stamp_id, Hfalsy.
  - by rewrite lookup_assign, stamp_ts.
Qed.

(** Every operation but a [touch] of a stale record invokes its callback
    once. *)
Lemma get_calls_back_once st sid :
  ∃ err value, callbacks (log (exec (Store.get sid report) st)) =
               callbacks (log st) ++ [Callback err value].
Proof.
  destruct (sessions st !! sid) as [sess|] eqn:Hs.
  - rewrite (get_exec_hit _ _ _ Hs). cbn. rewrite callbacks_app. eauto.
  - rewrite (get_exec_miss _ _ Hs). cbn. rewrite callbacks_app.
    destruct (pouch_get sid true (pouch st)) as [[e|sess] db]; cbn;
      [destruct (is_404 e)|]; eauto.
Qed.

Lemma set_calls_back_once st sid (session : obj) (now : Z) :
  ∃ err, callbacks (log (exec (Store.set sid session now report) st)) =
         callbacks (log st) ++ [Callback err NoValue].
Proof. rewrite set_exec. cbn. rewrite callbacks_app. eauto. Qed.

Lemma destroy_calls_back_once st sid :
  ∃ err, callbacks (log (exec (Store.destroy sid report) st)) =
         callbacks (log st) ++ [Callback err NoValue].
Proof.
  destruct (sessions st !! sid) as [sess|] eqn:Hs.
  - rewrite (destroy_exec_hit _ _ _ Hs). cbn. rewrite callbacks_app. eauto.
  - rewrite (destroy_exec_miss _ _ Hs). cbn.
    destruct (pouch_get sid true (pouch st)) as [[e|sess] db]; cbn;
      [destruct (is_404 e)|]; cbn; rewrite callbacks_app; eauto.
Qed.

Lemma all_calls_back_once st :
  ∃ err value, callbacks (log (exec (Store.all report) st)) =
               callbacks (log st) ++ [Callback err value].
Proof.
  unfold exec, Store.all, bind, await, report, emit. cbn.
  destruct (pouch_allDocs _ (pouch st)) as [[e|rows] db]; cbn;
    rewrite <- app_assoc, callbacks_app; eauto.
Qed.

Lemma length_calls_back_once st :
  ∃ err value, callbacks (log (exec (Store.length report) st)) =
               callbacks (log st) ++ [Callback err value].
Proof.
  unfold exec, Store.length, bind, await, report, emit. cbn.
  destruct (pouch_allDocs _ (pouch st)) as [[e|rows] db]; cbn;
    rewrite <- app_assoc, callbacks_app; eauto.
Qed.

Lemma clear_calls_back_once st :
  ∃ err, callbacks (log (exec (Store.clear report) st)) =
         callbacks (log st) ++ [Callback err NoValue].
Proof.
  unfold exec, Store.clear, bind, await, report, emit. cbn.
  destruct (pouch_allDocs _ (pouch st)) as [[e|rows] db]; cbn.
  - rewrite <- app_assoc, callbacks_app; eauto.
  - destruct (Store.tombstones rows) as [e|ts]; cbn.
    + rewrite <- app_assoc, callbacks_app; eauto.
    + destruct (pouch_bulkDocs ts db) as [[e|u] db']; cbn;
        rewrite <- !app_assoc, callbacks_app; eauto.
Qed.

Lemma touch_calls_back_once_unless_stale st sid (session : obj) (now now_set : Z)
    (x : js_error + obj) (st1 : SessionStore DB) :
  Store.existing sid st = (x, st1) →
  match x with
  | inl _ => True
  | inr old => js_gt (js_sub (VNum now) (getprop old "$ts")) (VNum 1000) = false
  end →
  ∃ err, callbacks (log (exec (Store.touch sid session now now_set report) st)) =
         callbacks (log st) ++ [Callback err NoValue].
Proof.
  intros Hx Hcase.
  destruct (existing_frame _ _ _ _ Hx) as (_ & _ & _ & l & Hl & Hcb & _).
  rewrite (touch_exec _ _ _ _ _ _ _ Hx). destruct x as [e|old].
  - unfold exec, report, emit. cbn [snd log].
    rewrite Hl, !callbacks_app, Hcb, app_nil_r. by eexists.
  - rewrite Hcase. unfold exec, report, emit. cbn [snd log].
    rewrite Hl, !callbacks_app, Hcb, app_nil_r. by eexists.
Qed.

(** C2, where the code breaks it: a [touch] that finds a record last
    touched more than a second ago hands the callback to [set], which
    invokes it, and then invokes it again. *)
Theorem touch_stale_invokes_callback_twice st sid (session old : obj)
    (ts now now_set : Z) (st1 : SessionStore DB) :
  Store.existing sid st = (inr old, st1) →
  getprop old "$ts" = VNum ts →
  (1000 < now - ts)%Z →
  ∃ err,
    callbacks (log (exec (Store.touch sid session now now_set report) st)) =
    callbacks (log st) ++ [Callback err NoValue; Callback None NoValue].
Proof.
  intros Hx Hts Hold.
  rewrite (touch_exec_stale _ _ _ old _ _ _ Hx).
  2:{ rewrite Hts, js_gt_sub_num. by apply Z.ltb_lt. }
  destruct (existing_frame _ _ _ _ Hx) as (_ & _ & _ & l & Hl & Hcb & _).
  cbn. rewrite Hl, !callbacks_app, Hcb, app_nil_r. by eexists.
Qed.

(** *** Touch *)



End Properties.

(** ** Over the in-memory database *)

Section InMemory.
Implicit Types (d : MemPouch.db) (st : SessionStore MemPouch.db).

Lemma tombstones_of_rows (l : list (string * obj)) :
  Store.tombstones ((λ kv, mkRow kv.1 (Some kv.2)) <$> l) =
  inr ((λ kv, Store.tombstone_doc kv.1 kv.2) <$> l).
Proof.
  induction l as [|[id o] l IH]; [done|].
  rewrite !fmap_cons. cbn [Store.tombstones]. by rewrite IH.
Qed.

(** The tombstone of a stored document, built from its own [_rev],
    deletes it. *)
Lemma write_tombstone d (id : string) (o : obj) :
  MemPouch.docs d !! id = Some o →
  MemPouch.write (Store.tombstone_doc id o) d =
  (inr tt, MemPouch.mkDb (delete id (MemPouch.docs d))
                         (MemPouch.next_rev d + 1) (MemPouch.faults d)).
Proof.
  intros Hid. unfold MemPouch.write, Store.tombstone_doc.
  rewrite getprop_insert_eq, Hid.
  rewrite (getprop_insert_ne _ "_id" "_rev") by done.
  rewrite getprop_insert_eq.
  rewrite decide_True by done.
  rewrite !(getprop_insert_ne _ _ "_deleted") by done.
  unfold getprop. by rewrite lookup_singleton_eq.
Qed.

Lemma bulk_tombstones_empty (l : list (string * obj)) :
  NoDup l.*1 →
  ∀ d, MemPouch.docs d = list_to_map l →
  MemPouch.docs (foldl (λ d doc, (MemPouch.write doc d).2) d
                   ((λ kv, Store.tombstone_doc kv.1 kv.2) <$> l)) = ∅ ∧
  MemPouch.faults (foldl (λ d doc, (MemPouch.write doc d).2) d
                     ((λ kv, Store.tombstone_doc kv.1 kv.2) <$> l)) =
  MemPouch.faults d.
Proof.
  induction l as [|[id o] l IH]; intros Hnd d Hd; [done|].
  rewrite fmap_cons in Hnd. apply NoDup_cons in Hnd as [Hid Hnd].
  cbn [list_to_map foldr fst snd] in Hd, Hid.
  rewrite fmap_cons. cbn [foldl fst snd].
  rewrite write_tombstone by (by rewrite Hd, lookup_insert_eq).
  cbn [snd].
  apply (IH Hnd (MemPouch.mkDb (delete id (MemPouch.docs d))
                   (MemPouch.next_rev d + 1) (MemPouch.faults d))).
  cbn [MemPouch.docs]. rewrite Hd. apply delete_insert_id.
  by apply not_elem_of_list_to_map_1.
Qed.

Lemma next_fault_docs d : MemPouch.docs (MemPouch.next_fault d).2 = MemPouch.docs d.
Proof. unfold MemPouch.next_fault. by destruct (MemPouch.faults d). Qed.

Lemma clear_exec_mem st :
  let a := MemPouch.next_fault (pouch st) in
  let b := MemPouch.next_fault a.2 in
  let ts := (λ kv, Store.tombstone_doc kv.1 kv.2) <$> map_to_list (MemPouch.docs (pouch st)) in
  let listing := AllDocs (mkAllDocsOpts true false) in
  exec (Store.clear report) st =
  match a.1 with
  | Some e =>
      mkStore a.2 (sessions st) (options st) (timer_period st)
              (log st ++ [PouchCall listing (Some e); Callback (Some e) NoValue])
  | None =>
      match b.1 with
      | Some e =>
          mkStore b.2 (sessions st) (options st) (timer_period st)
                  (log st ++ [PouchCall listing None; PouchCall (BulkDocs ts) (Some e);
                              Callback (Some e) NoValue])
      | None =>
          mkStore (foldl (λ d doc, (MemPouch.write doc d).2) b.2 ts)
                  (sessions st) (options st) (timer_period st)
                  (log st ++ [PouchCall listing None; PouchCall (BulkDocs ts) None;
                              Callback None NoValue])
      end
  end.
Proof.
  intros a b ts listing. subst a b.
  pose proof (next_fault_docs (pouch st)) as Hdocs.
  unfold exec, Store.clear, bind, await, report, emit.
  cbn [pouch_allDocs pouch_bulkDocs MemPouch.pouch].
  unfold MemPouch.allDocs, MemPouch.bulkDocs, MemPouch.guarded.
  destruct (MemPouch.next_fault (pouch st)) as [[e|] d1]; cbn [fst snd] in *.
  - cbn. by rewrite <- app_assoc.
  - cbn [include_docs pouch sessions options timer_period log failure_of].
    rewrite tombstones_of_rows, Hdocs. fold ts.
    cbn [pouch sessions options timer_period log].
    destruct (MemPouch.next_fault d1) as [[e|] d2]; cbn; by rewrite <- !app_assoc.
Qed.

Lemma length_exec_mem_empty st :
  MemPouch.docs (pouch st) = ∅ →
  let flt := (MemPouch.next_fault (pouch st)).1 in
  log (exec (Store.length report) st) =
  log st ++ [PouchCall (AllDocs (mkAllDocsOpts false false)) flt;
             match flt with
             | None => Callback None (Count 0)
             | Some e => Callback (Some e) NoValue
             end].
Proof.
  intros Hempty flt. subst flt.
  pose proof (next_fault_docs (pouch st)) as Hdocs. rewrite Hempty in Hdocs.
  unfold exec, Store.length, bind, await, report, emit.
  cbn [pouch_allDocs MemPouch.pouch]. unfold MemPouch.allDocs, MemPouch.guarded.
  destruct (MemPouch.next_fault (pouch st)) as [[e|] d1]; cbn [fst snd] in *.
  - cbn. by rewrite <- app_assoc.
  - rewrite Hdocs, map_to_list_empty. cbn. by rewrite <- app_assoc.
Qed.

Lemma all_exec_mem_empty st :
  MemPouch.docs (pouch st) = ∅ →
  let flt := (MemPouch.next_fault (pouch st)).1 in
  log (exec (Store.all report) st) =
  log st ++ [PouchCall (AllDocs (mkAllDocsOpts true true)) flt;
             match flt with
             | None => Callback None (Docs [])
             | Some e => Callback (Some e) NoValue
             end].
Proof.
  intros Hempty flt. subst flt.
  pose proof (next_fault_docs (pouch st)) as Hdocs. rewrite Hempty in Hdocs.
  unfold exec, Store.all, bind, await, report, emit.
  cbn [pouch_allDocs MemPouch.pouch]. unfold MemPouch.allDocs, MemPouch.guarded.
  destruct (MemPouch.next_fault (pouch st)) as [[e|] d1]; cbn [fst snd] in *.
  - cbn. by rewrite <- app_assoc.
  - rewrite Hdocs, map_to_list_empty. cbn. by rewrite <- app_assoc.
Qed.

(** C8: a [clear] that signalled success listed the documents of the
    database and sent one tombstone for each of them in a single
    [bulkDocs]; the database is then empty: [length] answers 0 and [all]
    answers the empty list (each answers with the transport error instead
    when its own call is rejected). *)
Theorem clear_then_length_and_all_are_empty st :
  let st1 := exec (Store.clear report) st in
  last (log st1) = Some (Callback None NoValue) →
  let ts := (λ kv, Store.tombstone_doc kv.1 kv.2) <$> map_to_list (MemPouch.docs (pouch st)) in
  let flt := (MemPouch.next_fault (pouch st1)).1 in
  log st1 = log st ++ [PouchCall (AllDocs (mkAllDocsOpts true false)) None;
                       PouchCall (BulkDocs ts) None; Callback None NoValue] ∧
  MemPouch.docs (pouch st1) = ∅ ∧
  log (exec (Store.length report) st1) =
    log st1 ++ [PouchCall (AllDocs (mkAllDocsOpts false false)) flt;
                match flt with
                | None => Callback None (Count 0)
                | Some e => Callback (Some e) NoValue
                end] ∧
  log (exec (Store.all report) st1) =
    log st1 ++ [PouchCall (AllDocs (mkAllDocsOpts true true)) flt;
                match flt with
                | None => Callback None (Docs [])
                | Some e => Callback (Some e) NoValue
                end].
Proof.
  intros st1 Hok ts flt.
  assert (Hst1 : log st1 = log st ++ [PouchCall (AllDocs (mkAllDocsOpts true false)) None;
                                     PouchCall (BulkDocs ts) None; Callback None NoValue] ∧
                 MemPouch.docs (pouch st1) = ∅).
  { subst st1. rewrite clear_exec_mem in *. fold ts in Hok |- *.
    destruct (MemPouch.next_fault (pouch st)).1 as [e|] eqn:E1.
    { cbn [log] in Hok. rewrite last_app in Hok. by cbn in Hok. }
    destruct (MemPouch.next_fault (MemPouch.next_fault (pouch st)).2).1 as [e|] eqn:E2.
    { cbn [log] in Hok. rewrite last_app in Hok. by cbn in Hok. }
    cbn [log pouch]. split; [done|].
    apply bulk_tombstones_empty; [apply NoDup_fst_map_to_list|].
    by rewrite !next_fault_docs, list_to_map_to_list. }
  destruct Hst1 as [Hlog Hempty]. split; [done|]. split; [done|].
  split; [by apply length_exec_mem_empty | by apply all_exec_mem_empty].
Qed.

End InMemory.

(** * Concrete runs *)

Section Runs.
Import Examples.
#[local] Existing Instance host.

(** C1, as stated, fails: the database is unreachable, the [put] of
    [set("abc", {user: "alice"})] is rejected and the error reaches the
    callback, yet the cache, which had no entry for ["abc"], has one. *)
Lemma set_failed_write_changes_cache :
  let st' := exec (Store.set "abc" alice 1000 report) offline in
  let doc := Store.stamp "abc" alice 1000 in
  log st' = [PouchCall (Put doc) (Some MemPouch.unavailable);
             Callback (Some MemPouch.unavailable) NoValue] ∧
  sessions offline !! "abc" = None ∧
  sessions st' !! "abc" = Some doc.
Proof. vm_compute. repeat split. Qed.

(** The same after a first, successful [set]: the cached record carries
    no [_rev], the second [put] is a conflict, the cache has the second
    record all the same. *)
Lemma set_failed_write_keeps_cache_update_witness :
  let doc := Store.merge (sessions with_abc) "abc" (Store.stamp "abc" bob 2000) in
  let st' := exec (Store.set "abc" bob 2000 report) with_abc in
  inherited_name "abc" = false ∧
  (pouch_put doc (pouch with_abc)).1 = inl MemPouch.conflict ∧
  sessions st' !! "abc" = Some doc ∧
  log st' = log with_abc ++ [PouchCall (Put doc) (Some MemPouch.conflict);
                             Callback (Some MemPouch.conflict) NoValue].
Proof.
  split; [by vm_compute|]. split; [by vm_compute|].
  apply (set_failed_write_keeps_cache_update with_abc "abc" bob 2000 MemPouch.conflict);
    by vm_compute.
Defined.

(** C2 at the failing input: ["abc"] was stored at time 1000 and is
    touched at time 5000; the callback is invoked twice. *)
Lemma touch_stale_invokes_callback_twice_witness :
  ∃ err,
    callbacks (log (exec (Store.touch "abc" bob 5000 5000 report) with_abc)) =
    callbacks (log with_abc) ++ [Callback err NoValue; Callback None NoValue].
Proof.
  apply (touch_stale_invokes_callback_twice with_abc "abc" bob
           (Store.stamp "abc" alice 1000) 1000 5000 5000 with_abc).
  - by vm_compute.
  - by vm_compute.
  - lia.
Defined.

(** C3, where the code breaks it: the database is reachable and holds
    no ["abc"], nor does the cache.  The lookup of [destroy] answers
    without error and without a document, [destroy] hands [undefined] to
    [remove], that call is rejected with a [TypeError], and the callback
    receives the error instead of a silent success. *)
Example destroy_absent_in_memory :
  log (exec (Store.destroy "abc" report) (fresh MemPouch.empty)) =
  [PouchCall (Get "abc" true) (Some MemPouch.not_found);
   PouchCall (Remove None) (Some TypeError);
   Callback (Some TypeError) NoValue].
Proof. by vm_compute. Qed.

Lemma get_after_set_returns_merged_record_witness :
  let st1 := exec (Store.set "abc" alice 1000 report) (fresh MemPouch.empty) in
  last (log st1) = Some (Callback None NoValue) ∧
  ∃ r : obj,
    log (exec (Store.get "abc" report) st1) = log st1 ++ [Callback None (Doc r)] ∧
    dom alice ⊆ dom r ∧
    (∀ k v, alice !! k = Some v → k ≠ "$ts" →
            (k = "_id" → truthy v = true) → r !! k = Some v) ∧
    (∀ k, alice !! k = None → k ≠ "$ts" → k ≠ "_id" →
          r !! k = default ∅ (sessions (fresh MemPouch.empty) !! "abc") !! k) ∧
    (truthy (getprop alice "_id") = false → r !! "_id" = Some (VStr "abc")) ∧
    r !! "$ts" = Some (VNum 1000).
Proof.
  split; [by vm_compute|].
  apply (get_after_set_returns_merged_record (fresh MemPouch.empty) "abc" alice 1000).
  by vm_compute.
Defined.



Lemma scavenge_tick_evicts_idle_witness :
  let st' := exec (Store.scavenge_tick initial_module 400000) two_sessions in
  sessions two_sessions !! "abc" = Some (Store.stamp "abc" alice 1000) ∧
  sessions two_sessions !! "xyz" = Some (Store.stamp "xyz" bob 400000) ∧
  getprop (deref initial_module (options two_sessions)) "maxIdle" = VNum 300000 ∧
  sessions st' !! "abc" = None ∧
  sessions st' !! "xyz" = Some (Store.stamp "xyz" bob 400000) ∧
  pouch st' = pouch two_sessions ∧
  log st' = log two_sessions.
Proof.
  intros st'.
  assert (Habc : sessions two_sessions !! "abc" = Some (Store.stamp "abc" alice 1000))
    by by vm_compute.
  assert (Hxyz : sessions two_sessions !! "xyz" = Some (Store.stamp "xyz" bob 400000))
    by by vm_compute.
  assert (Hmax : getprop (deref initial_module (options two_sessions)) "maxIdle"
                 = VNum 300000) by by vm_compute.
  destruct (scavenge_tick_evicts_idle initial_module two_sessions 400000)
    as (_ & Hnum & Hpouch & Hlog).
  split; [exact Habc|]. split; [exact Hxyz|]. split; [exact Hmax|].
  split; [|split; [|split; [exact Hpouch | exact Hlog]]].
  - destruct (Hnum "abc" _ 1000%Z 300000%Z Habc) as [Hout _]; [by vm_compute|exact Hmax|].
    apply Hout. lia.
  - destruct (Hnum "xyz" _ 400000%Z 300000%Z Hxyz) as [_ Hin]; [by vm_compute|exact Hmax|].
    apply Hin. lia.
Defined.

Lemma change_event_merges_into_cache_witness :
  (sessions with_abc !! "abc" = Some (Store.stamp "abc" alice 1000) ∧
   ∃ merged,
     sessions (exec (Store.on_change update_abc) with_abc) =
       <["abc" := merged]> (sessions with_abc) ∧
     merged !! "user" = Some (VStr "bob") ∧
     merged !! "$ts" = Some (VNum 1000) ∧
     log (exec (Store.get "abc" report) (exec (Store.on_change update_abc) with_abc)) =
       log with_abc ++ [Callback None (Doc merged)]) ∧
  (sessions with_abc !! "zzz" = None ∧
   exec (Store.on_change update_zzz) with_abc = with_abc).
Proof.
  split.
  - split; [by vm_compute|].
    destruct (change_event_merges_into_cache with_abc update_abc) as [Hhit _].
    destruct (Hhit (Store.stamp "abc" alice 1000)) as (merged & Hs & Hin & Hkeep & Hget);
      [by vm_compute|].
    exists merged. split; [exact Hs|]. split; [|split; [|exact Hget]].
    + apply Hin. by vm_compute.
    + rewrite Hkeep; by vm_compute.
  - split; [by vm_compute|].
    apply (change_event_merges_into_cache with_abc update_zzz). by vm_compute.
Defined.

Lemma clear_then_length_and_all_are_empty_witness :
  let st1 := exec (Store.clear report) two_sessions in
  last (log st1) = Some (Callback None NoValue) ∧
  MemPouch.docs (pouch st1) = ∅ ∧
  log (exec (Store.length report) st1) =
    log st1 ++ [PouchCall (AllDocs (mkAllDocsOpts false false)) None;
                Callback None (Count 0)] ∧
  log (exec (Store.all report) st1) =
    log st1 ++ [PouchCall (AllDocs (mkAllDocsOpts true true)) None;
                Callback None (Docs [])].
Proof.
  intros st1.
  assert (Hok : last (log st1) = Some (Callback None NoValue)) by by vm_compute.
  split; [exact Hok|].
  destruct (clear_then_length_and_all_are_empty two_sessions Hok)
    as (_ & Hempty & Hlength & Hall).
  split; [exact Hempty|]. split; [exact Hlength | exact Hall].
Defined.


Lemma constructor_mutates_shared_defaults_witness :
  let r1 := Store.new_SessionStore MemPouch.empty one_minute initial_module in
  let r2 := Store.new_SessionStore MemPouch.empty fast_sweep r1.2 in
  one_minute !! "maxIdle" = Some (VNum 60000) ∧
  fast_sweep !! "maxIdle" = None ∧
  deref r2.2 (options r2.1) !! "maxIdle" = Some (VNum 60000).
Proof.
  intros r1 r2.
  destruct (constructor_mutates_shared_defaults
              MemPouch.empty MemPouch.empty one_minute fast_sweep initial_module)
    as (_ & _ & _ & Hopt).
  split; [by vm_compute|]. split; [by vm_compute|].
  apply Hopt; by vm_compute.
Defined.

End Runs.


(** * Further properties *)

Section Frames.
Context `{host : JSHost} {DB : Type} `{adapter : Pouch DB}.
Implicit Types (st : SessionStore DB) (sid : string) (m : module_state).

Lemma all_exec st :
  let r := pouch_allDocs (mkAllDocsOpts true true) (pouch st) in
  exec (Store.all report) st =
  mkStore r.2 (sessions st) (options st) (timer_period st)
          (log st ++ [PouchCall (AllDocs (mkAllDocsOpts true true)) (failure_of r.1);
                      match r.1 with
                      | inr rows => Callback None (Docs (row_doc <$> rows))
                      | inl e => Callback (Some e) NoValue
                      end]).
Proof.
  unfold exec, Store.all, bind, await, report, emit. cbn.
  destruct (pouch_allDocs _ (pouch st)) as [[e|rows] db]; cbn; by rewrite <- app_assoc.
Qed.

Lemma length_exec st :
  let r := pouch_allDocs (mkAllDocsOpts false false) (pouch st) in
  exec (Store.length report) st =
  mkStore r.2 (sessions st) (options st) (timer_period st)
          (log st ++ [PouchCall (AllDocs (mkAllDocsOpts false false)) (failure_of r.1);
                      match r.1 with
                      | inr rows => Callback None (Count (List.length rows))
                      | inl e => Callback (Some e) NoValue
                      end]).
Proof.
  unfold exec, Store.length, bind, await, report, emit. cbn.
  destruct (pouch_allDocs _ (pouch st)) as [[e|rows] db]; cbn; by rewrite <- app_assoc.
Qed.

Lemma clear_frame st :
  sessions (exec (Store.clear report) st) = sessions st ∧
  options (exec (Store.clear report) st) = options st.
Proof.
  unfold exec, Store.clear, bind, await, report, emit. cbn.
  destruct (pouch_allDocs _ (pouch st)) as [[e|rows] db]; cbn; [done|].
  destruct (Store.tombstones rows) as [e|ts]; cbn; [done|].
  by destruct (pouch_bulkDocs ts db) as [[e|u] db'].
Qed.

Lemma scavenge_tick_lookup m st (now : Z) sid :
  sessions (exec (Store.scavenge_tick m now) st) !! sid =
  match sessions st !! sid with
  | Some sess =>
      if Store.idle now (getprop (deref m (options st)) "maxIdle") sess
      then None else Some sess
  | None => None
  end.
Proof.
  unfold exec, Store.scavenge_tick, write_sessions. cbn [snd sessions].
  rewrite scavenge_foldl_lookup by apply NoDup_fst_map_to_list.
  destruct (sessions st !! sid) as [sess|] eqn:E.
  - rewrite decide_True; [done|].
    apply list_elem_of_fmap. exists (sid, sess). split; [done|].
    by apply elem_of_map_to_list.
  - by case_decide.
Qed.

Lemma scavenge_tick_frame m st (now : Z) :
  pouch (exec (Store.scavenge_tick m now) st) = pouch st ∧
  options (exec (Store.scavenge_tick m now) st) = options st ∧
  log (exec (Store.scavenge_tick m now) st) = log st.
Proof. done. Qed.

(** X1: the reading operations [get], [all] and [length] leave the cache
    as it is and make no store write. *)
Theorem reads_leave_cache_and_store_alone st sid :
  (sessions (exec (Store.get sid report) st) = sessions st ∧
   store_writes (log (exec (Store.get sid report) st)) = store_writes (log st)) ∧
  (sessions (exec (Store.all report) st) = sessions st ∧
   store_writes (log (exec (Store.all report) st)) = store_writes (log st)) ∧
  (sessions (exec (Store.length report) st) = sessions st ∧
   store_writes (log (exec (Store.length report) st)) = store_writes (log st)).
Proof.
  split; [|split].
  - destruct (sessions st !! sid) as [sess|] eqn:Hs.
    + rewrite (get_exec_hit _ _ _ Hs). cbn [sessions log].
      split; [done|]. rewrite store_writes_app. cbn. lia.
    + rewrite (get_exec_miss _ _ Hs). cbn [sessions log].
      split; [done|]. rewrite store_writes_app.
      destruct (pouch_get sid true (pouch st)) as [[e|sess] db]; cbn;
        [destruct (is_404 e)|]; cbn; lia.
  - rewrite all_exec. cbn [sessions log]. split; [done|].
    rewrite store_writes_app.
    destruct (pouch_allDocs _ (pouch st)) as [[e|rows] db]; cbn; lia.
  - rewrite length_exec. cbn [sessions log]. split; [done|].
    rewrite store_writes_app.
    destruct (pouch_allDocs _ (pouch st)) as [[e|rows] db]; cbn; lia.
Qed.

(** X2: for an identifier that is not a property name of
    [Object.prototype], [get] is cache-first and forgiving: a cached record
    is answered without any call to the database; otherwise the database
    is read once, and an error reaches the callback exactly when that read
    was rejected with an error other than a 404. *)
Theorem get_reports_only_non_404_rejections st sid :
  inherited_name sid = false →
  ∃ (l : list event) (err : option js_error) (value : cb_value),
    log (exec (Store.get sid report) st) = log st ++ l ∧
    callbacks l = [Callback err value] ∧
    (is_Some (sessions st !! sid) →
       l = [Callback None (from_option Doc NoValue (sessions st !! sid))]) ∧
    (sessions st !! sid = None →
       ∃ failure, l = [PouchCall (Get sid true) failure; Callback err value]) ∧
    ∀ e, err = Some e ↔
         (PouchCall (Get sid true) (Some e) ∈ l ∧ is_404 e = false).
Proof.
  intros _. destruct (sessions st !! sid) as [sess|] eqn:Hs.
  - rewrite (get_exec_hit _ _ _ Hs). cbn [log].
    eexists _, _, _. split; [done|]. split; [done|]. split; [done|].
    split; [done|]. intros e. rewrite list_elem_of_singleton.
    split; [done | by intros [? ?]].
  - rewrite (get_exec_miss _ _ Hs). cbn [log].
    destruct (pouch_get sid true (pouch st)) as [[e0|sess] db]; cbn;
      [destruct (is_404 e0) eqn:E404|];
      (eexists _, _, _; split; [done|]; split; [done|];
       split; [by intros [? ?]|]; split; [by eexists|]);
      intros e; rewrite !elem_of_cons, elem_of_nil; split;
      try (intros [= <-]; split; [by left | done]);
      try (intros [Hin H4]; destruct_or?; simplify_eq; congruence);
      try done.
Qed.

(** X3: whatever the database answers, [destroy] leaves no entry for the
    identifier in the cache and touches no other entry, and it makes at
    most one store write. *)
Theorem destroy_always_uncaches st sid :
  let st' := exec (Store.destroy sid report) st in
  sessions st' !! sid = None ∧
  (∀ sid', sid' ≠ sid → sessions st' !! sid' = sessions st !! sid') ∧
  store_writes (log st') ≤ store_writes (log st) + 1.
Proof.
  intros st'. subst st'.
  destruct (sessions st !! sid) as [sess|] eqn:Hs.
  - rewrite (destroy_exec_hit _ _ _ Hs). cbn [sessions log].
    split; [by rewrite lookup_delete_eq|].
    split; [by intros; rewrite lookup_delete_ne|].
    rewrite store_writes_app. cbn. lia.
  - rewrite (destroy_exec_miss _ _ Hs).
    destruct (pouch_get sid true (pouch st)) as [[e|sess] db]; cbn [fst snd];
      [destruct (is_404 e)|]; cbn [sessions log];
      (split; [by rewrite ?lookup_delete_eq|]);
      (split; [by intros; rewrite ?lookup_delete_ne|]);
      rewrite store_writes_app; cbn; lia.
Qed.

(** X4: for an identifier that is not a property name of
    [Object.prototype], [set] makes one [put], of exactly the record it
    leaves in the cache under that identifier, and the [_rev] of that
    record is the one passed in or, failing that, the one already cached:
    what [put] answers never reaches the cache. *)
Theorem set_puts_the_record_it_caches st sid (session : obj) (now : Z) :
  inherited_name sid = false →
  let st' := exec (Store.set sid session now report) st in
  ∃ (doc : obj) (failure : option js_error),
    log st' = log st ++ [PouchCall (Put doc) failure; Callback failure NoValue] ∧
    sessions st' !! sid = Some doc ∧
    getprop doc "_rev" =
      match session !! "_rev" with
      | Some v => v
      | None => getprop (default ∅ (sessions st !! sid)) "_rev"
      end.
Proof.
  intros _ st'. subst st'. rewrite set_exec. cbn [sessions log].
  eexists _, _. split; [done|]. split; [by rewrite lookup_insert_eq|].
  unfold Store.merge. rewrite getprop_assign.
  by rewrite stamp_lookup_other.
Qed.

(** X5: [clear] does not touch the cache: a record cached before a
    [clear] is still answered by [get] after it, from the cache. *)
Theorem clear_leaves_cached_records st sid (sess : obj) :
  sessions st !! sid = Some sess →
  let st1 := exec (Store.clear report) st in
  sessions st1 = sessions st ∧
  log (exec (Store.get sid report) st1) = log st1 ++ [Callback None (Doc sess)].
Proof.
  intros Hs st1. destruct (clear_frame st) as [Hc _]. fold st1 in Hc.
  split; [done|]. rewrite (get_exec_hit st1 sid sess); [done|]. by rewrite Hc.
Qed.

(** X6: a [touch] of an identifier that is not a property name of
    [Object.prototype] and that the cache does not hold reads the
    database, and when that read is rejected, with a 404 as with any other
    error, the error goes to the callback; nothing is cached or written. *)
Theorem touch_reports_failed_lookup st sid (session : obj) (now now_set : Z)
    (e : js_error) (db' : DB) :
  inherited_name sid = false →
  sessions st !! sid = None →
  pouch_get sid false (pouch st) = (inl e, db') →
  let st' := exec (Store.touch sid session now now_set report) st in
  log st' = log st ++ [PouchCall (Get sid false) (Some e); Callback (Some e) NoValue] ∧
  sessions st' = sessions st.
Proof.
  intros _ Hs Hget st'. subst st'.
  assert (Hx : Store.existing sid st =
               (inl e, mkStore db' (sessions st) (options st) (timer_period st)
                         (log st ++ [PouchCall (Get sid false) (Some e)]))).
  { unfold Store.existing, bind, read_sessions, await. cbn. rewrite Hs. cbn.
    by rewrite Hget. }
  rewrite (touch_exec _ _ _ _ _ _ _ Hx). unfold exec, report, emit. cbn.
  by rewrite <- app_assoc.
Qed.

(** X7: a scavenge tick only removes entries, and a second tick at the
    same time removes nothing more. *)
Theorem scavenge_tick_shrinks_and_settles m st (now : Z) :
  let st' := exec (Store.scavenge_tick m now) st in
  sessions st' ⊆ sessions st ∧
  sessions (exec (Store.scavenge_tick m now) st') = sessions st'.
Proof.
  intros st'. split.
  - apply map_subseteq_spec. intros sid sess. subst st'.
    rewrite scavenge_tick_lookup.
    destruct (sessions st !! sid) as [o|]; [|done].
    by destruct (Store.idle _ _ _).
  - apply map_eq. intros sid. rewrite scavenge_tick_lookup.
    destruct (scavenge_tick_frame m st now) as (_ & Ho & _). fold st' in Ho.
    rewrite Ho. subst st'. rewrite scavenge_tick_lookup.
    destruct (sessions st !! sid) as [o|]; [|done].
    destruct (Store.idle _ _ _) eqn:E; [done|]. by rewrite E.
Qed.

(** X8: a scavenge tick evicts nothing it cannot date: when [maxIdle] is
    not a number the whole cache stays, and a record whose [$ts] is not a
    number stays whatever [maxIdle] is. *)
Theorem scavenge_keeps_what_it_cannot_date m st (now : Z) :
  let st' := exec (Store.scavenge_tick m now) st in
  (ToNumber (getprop (deref m (options st)) "maxIdle") = None →
     sessions st' = sessions st) ∧
  (∀ sid sess, sessions st !! sid = Some sess →
     ToNumber (getprop sess "$ts") = None →
     sessions st' !! sid = Some sess).
Proof.
  intros st'. subst st'. split.
  - intros Hnan. apply map_eq. intros sid. rewrite scavenge_tick_lookup.
    destruct (sessions st !! sid) as [o|]; [|done].
    unfold Store.idle, js_gt. rewrite Hnan. by destruct (js_sub _ _).
  - intros sid sess Hs Hnan. rewrite scavenge_tick_lookup, Hs.
    unfold Store.idle, js_sub. cbn [ToNumber]. by rewrite Hnan.
Qed.

(** X9: a change event never adds an entry to the cache nor removes one
    (not even when it reports a deletion), leaves the entries of other
    identifiers as they are, and has the same effect delivered twice as
    delivered once. *)
Theorem change_event_keeps_cache_keys st (c : Store.change) :
  let st' := exec (Store.on_change c) st in
  dom (sessions st') = dom (sessions st) ∧
  (∀ sid, sid ≠ Store.change_id c → sessions st' !! sid = sessions st !! sid) ∧
  exec (Store.on_change c) st' = st'.
Proof.
  intros st'. subst st'.
  unfold exec, Store.on_change, bind, read_sessions, write_sessions, ret.
  cbn [fst snd sessions].
  destruct (sessions st !! Store.change_id c) as [old|] eqn:E; cbn [fst snd sessions].
  - split; [|split].
    + apply set_eq. intros k. rewrite !elem_of_dom.
      destruct (decide (k = Store.change_id c)) as [->|Hne].
      * rewrite lookup_insert_eq, E. split; eauto.
      * by rewrite lookup_insert_ne.
    + intros sid Hne. by rewrite lookup_insert_ne.
    + rewrite lookup_insert_eq. cbn [snd pouch sessions options timer_period log].
      f_equal. rewrite insert_insert_eq. f_equal. unfold assign.
      by rewrite (assoc_L (∪)), (idemp_L (∪)).
  - split; [done|]. split; [done|]. by rewrite E.
Qed.

(** X10: the options object is shared, so a store constructed later
    changes how an earlier store scavenges: a tick of the earlier store
    evicts by the [maxIdle] given to the later one. *)
Theorem later_constructor_governs_earlier_scavenge (db1 db2 : DB) (o1 o2 : obj) m0
    st sid (sess : obj) (now ts bound : Z) :
  let r1 := Store.new_SessionStore db1 o1 m0 in
  let r2 := Store.new_SessionStore db2 o2 r1.2 in
  options st = options r1.1 →
  o2 !! "maxIdle" = Some (VNum bound) →
  sessions st !! sid = Some sess →
  getprop sess "$ts" = VNum ts →
  sessions (exec (Store.scavenge_tick r2.2 now) st) !! sid =
  if (bound <? now - ts)%Z then None else Some sess.
Proof.
  intros r1 r2 Ho Hmax Hs Hts. rewrite scavenge_tick_lookup, Hs, Ho.
  assert (Hb : getprop (deref r2.2 (options r1.1)) "maxIdle" = VNum bound).
  { subst r1 r2. cbn. unfold getprop. by rewrite lookup_assign, Hmax. }
  rewrite Hb. unfold Store.idle. by rewrite Hts, js_gt_sub_num.
Qed.

(** X11: for an identifier that is not a property name of
    [Object.prototype], [get], [set] and [destroy] each invoke the callback
    exactly once, whatever the database answers, and so do [all], [clear]
    and [length]. *)
Theorem operations_call_back_once st sid (session : obj) (now : Z) :
  inherited_name sid = false →
  (∃ err value, callbacks (log (exec (Store.get sid report) st)) =
                callbacks (log st) ++ [Callback err value]) ∧
  (∃ err, callbacks (log (exec (Store.set sid session now report) st)) =
          callbacks (log st) ++ [Callback err NoValue]) ∧
  (∃ err, callbacks (log (exec (Store.destroy sid report) st)) =
          callbacks (log st) ++ [Callback err NoValue]) ∧
  (∃ err value, callbacks (log (exec (Store.all report) st)) =
                callbacks (log st) ++ [Callback err value]) ∧
  (∃ err, callbacks (log (exec (Store.clear report) st)) =
          callbacks (log st) ++ [Callback err NoValue]) ∧
  (∃ err value, callbacks (log (exec (Store.length report) st)) =
                callbacks (log st) ++ [Callback err value]).
Proof.
  intros _. split; [apply get_calls_back_once|].
  split; [apply set_calls_back_once|].
  split; [apply destroy_calls_back_once|].
  split; [apply all_calls_back_once|].
  split; [apply clear_calls_back_once | apply length_calls_back_once].
Qed.

(** X12: a scavenge tick changes nothing of what [all] and [length]
    answer: they make the same call and invoke the callback with the same
    arguments as they would have without the tick. *)
Theorem scavenge_is_invisible_to_all_and_length m st (now : Z) :
  let st' := exec (Store.scavenge_tick m now) st in
  ∃ l_all l_length : list event,
    log (exec (Store.all report) st') = log st' ++ l_all ∧
    log (exec (Store.all report) st) = log st ++ l_all ∧
    log (exec (Store.length report) st') = log st' ++ l_length ∧
    log (exec (Store.length report) st) = log st ++ l_length.
Proof.
  intros st'. destruct (scavenge_tick_frame m st now) as (Hp & _ & _).
  fold st' in Hp. rewrite !all_exec, !length_exec. cbn [log]. rewrite Hp.
  by eexists _, _.
Qed.

End Frames.

(** ** The cache invariant *)

Lemma stamped_empty : stamped ∅.
Proof. intros sid o Ho. by rewrite lookup_empty in Ho. Qed.

Lemma stamped_insert (s : gmap string obj) (sid : string) (o : obj) (t : Z) :
  stamped s → o !! "$ts" = Some (VNum t) → stamped (<[sid := o]> s).
Proof.
  intros Hs Ho sid' o' Hl. destruct (decide (sid = sid')) as [->|Hne].
  - rewrite lookup_insert_eq in Hl. simplify_eq. eauto.
  - rewrite lookup_insert_ne in Hl by done. eauto.
Qed.

Lemma stamped_subseteq (s s' : gmap string obj) :
  s' ⊆ s → stamped s → stamped s'.
Proof.
  intros Hsub Hs sid o Hl. apply (Hs sid).
  by apply (lookup_weaken _ _ _ _ Hl).
Qed.

Section Invariant.
Context `{host : JSHost} {DB : Type} `{adapter : Pouch DB}.
Implicit Types (st : SessionStore DB) (sid : string) (m : module_state).

Lemma destroy_sessions st sid :
  sessions (exec (Store.destroy sid report) st) = delete sid (sessions st).
Proof.
  destruct (sessions st !! sid) as [sess|] eqn:Hs.
  - by rewrite (destroy_exec_hit _ _ _ Hs).
  - rewrite (destroy_exec_miss _ _ Hs).
    destruct (pouch_get sid true (pouch st)) as [[e|sess] db]; cbn [fst snd];
      [destruct (is_404 e)|]; cbn [sessions]; try done.
    by rewrite delete_id.
Qed.

Lemma touch_sessions st sid (session : obj) (now now_set : Z) :
  sessions (exec (Store.touch sid session now now_set report) st) = sessions st ∨
  ∃ old, sessions (exec (Store.touch sid session now now_set report) st) =
         <[sid := Store.stamp sid old now_set]> (sessions st).
Proof.
  destruct (Store.existing sid st) as [x st1] eqn:Hx.
  destruct (existing_frame _ _ _ _ Hx) as (Hs & _).
  destruct x as [e|old].
  - left. by rewrite (touch_exec _ _ _ _ _ _ _ Hx).
  - destruct (js_gt (js_sub (VNum now) (getprop old "$ts")) (VNum 1000)) eqn:Hgt.
    + right. exists old. by rewrite (touch_exec_stale _ _ _ old _ _ _ Hx Hgt).
    + left. by rewrite (touch_exec_fresh _ _ _ old _ _ _ Hx Hgt).
Qed.

(** X13: the cache of a new store is empty, and from a cache in which
    every record has a number in [$ts], every operation, the scavenge
    tick, and every change event whose document has no [$ts] or a number
    there, leads to such a cache again. *)
Theorem operations_keep_cache_stamped st :
  stamped (sessions st) →
  (∀ sid (session : obj) (now : Z),
     stamped (sessions (exec (Store.set sid session now report) st))) ∧
  (∀ sid (session : obj) (now now_set : Z),
     stamped (sessions (exec (Store.touch sid session now now_set report) st))) ∧
  (∀ sid, stamped (sessions (exec (Store.destroy sid report) st))) ∧
  (∀ sid, stamped (sessions (exec (Store.get sid report) st))) ∧
  stamped (sessions (exec (Store.all report) st)) ∧
  stamped (sessions (exec (Store.clear report) st)) ∧
  stamped (sessions (exec (Store.length report) st)) ∧
  (∀ m (now : Z), stamped (sessions (exec (Store.scavenge_tick m now) st))) ∧
  (∀ c : Store.change,
     (∀ v, Store.change_doc c !! "$ts" = Some v → ∃ t : Z, v = VNum t) →
     stamped (sessions (exec (Store.on_change c) st))) ∧
  (∀ (db : DB) (opts : obj) m,
     stamped (sessions (Store.new_SessionStore db opts m).1)).
Proof.
  intros Hst. repeat apply conj.
  - intros sid session now. rewrite set_exec. cbn [sessions].
    apply (stamped_insert _ _ _ now); [done|].
    unfold Store.merge. by rewrite lookup_assign, stamp_ts.
  - intros sid session now now_set.
    destruct (touch_sessions st sid session now now_set) as [->|[old ->]]; [done|].
    apply (stamped_insert _ _ _ now_set); [done | apply stamp_ts].
  - intros sid. rewrite destroy_sessions.
    apply (stamped_subseteq (sessions st)); [apply delete_subseteq | done].
  - intros sid.
    destruct (sessions st !! sid) as [sess|] eqn:Hs.
    + by rewrite (get_exec_hit _ _ _ Hs).
    + by rewrite (get_exec_miss _ _ Hs).
  - by rewrite all_exec.
  - by destruct (clear_frame st) as [-> _].
  - by rewrite length_exec.
  - intros m now sid o. rewrite scavenge_tick_lookup.
    destruct (sessions st !! sid) as [sess|] eqn:Hs; [|done].
    destruct (Store.idle _ _ _); [done|]. intros [= <-]. by apply (Hst sid).
  - intros c Hdoc.
    unfold exec, Store.on_change, bind, read_sessions, write_sessions, ret.
    cbn [fst snd sessions].
    destruct (sessions st !! Store.change_id c) as [old|] eqn:E; [|done].
    cbn [snd sessions].
    destruct (Store.change_doc c !! "$ts") as [v|] eqn:Ev.
    + destruct (Hdoc v eq_refl) as [t ->].
      apply (stamped_insert _ _ _ t); [done|]. by rewrite lookup_assign, Ev.
    + destruct (Hst _ _ E) as [t Ht].
      apply (stamped_insert _ _ _ t); [done|]. by rewrite lookup_assign, Ev.
  - intros db opts m. apply stamped_empty.
Qed.

End Invariant.

(** ** More over the in-memory database *)

Section InMemoryRuns.
Implicit Types (d : MemPouch.db) (st : SessionStore MemPouch.db) (sid : string).

Lemma guarded_reachable {A} (f : MemPouch.db → (js_error + A) * MemPouch.db) d :
  MemPouch.faults d = [] → MemPouch.guarded f d = f d.
Proof.
  intros Hf. unfold MemPouch.guarded, MemPouch.next_fault. by rewrite Hf.
Qed.


Lemma write_conflict d (doc cur : obj) sid :
  getprop doc "_id" = VStr sid →
  MemPouch.docs d !! sid = Some cur →
  getprop doc "_rev" ≠ getprop cur "_rev" →
  MemPouch.write doc d = (inl MemPouch.conflict, d).
Proof.
  intros Hid Hcur Hrev. unfold MemPouch.write.
  rewrite Hid, Hcur. by rewrite decide_False.
Qed.


(** X14: over the in-memory database, with the database reachable, [get]
    of an identifier that is not a property name of [Object.prototype] and
    that neither the cache nor the database holds answers without error
    and without a record. *)
Theorem get_unknown_is_absent st sid :
  inherited_name sid = false →
  MemPouch.faults (pouch st) = [] →
  sessions st !! sid = None →
  MemPouch.docs (pouch st) !! sid = None →
  log (exec (Store.get sid report) st) =
  log st ++ [PouchCall (Get sid true) (Some MemPouch.not_found); Callback None NoValue].
Proof.
  intros _ Hf Hs Hd. rewrite (get_exec_miss _ _ Hs). cbn [log].
  cbn [pouch_get MemPouch.pouch]. unfold MemPouch.get.
  rewrite guarded_reachable by done. by rewrite Hd.
Qed.

(** X15: over the in-memory database, with the database reachable,
    [length] answers the number of documents in the database and [all]
    answers those documents, whatever the cache holds. *)
Theorem length_and_all_report_the_database st :
  MemPouch.faults (pouch st) = [] →
  log (exec (Store.length report) st) =
    log st ++ [PouchCall (AllDocs (mkAllDocsOpts false false)) None;
               Callback None (Count (size (MemPouch.docs (pouch st))))] ∧
  log (exec (Store.all report) st) =
    log st ++ [PouchCall (AllDocs (mkAllDocsOpts true true)) None;
               Callback None (Docs (Some <$> (map_to_list (MemPouch.docs (pouch st))).*2))].
Proof.
  intros Hf. split.
  - rewrite length_exec. cbn [log pouch_allDocs MemPouch.pouch].
    unfold MemPouch.allDocs. rewrite guarded_reachable by done. cbn [fst failure_of].
    by rewrite length_fmap, length_map_to_list.
  - rewrite all_exec. cbn [log pouch_allDocs MemPouch.pouch].
    unfold MemPouch.allDocs. rewrite guarded_reachable by done. cbn [fst failure_of].
    by rewrite <- !list_fmap_compose.
Qed.


(** X17: over the in-memory database, [destroy] of a cached session
    hands the cached record to [remove] without reading the database; when
    the cached record does not carry the current revision the removal is a
    conflict: the error reaches the callback, the document stays in the
    database, the cache entry is gone all the same, and a [get] that
    follows reads the document back from the database. *)
Theorem destroy_with_stale_revision_keeps_document st sid (cached cur : obj) :
  MemPouch.faults (pouch st) = [] →
  sessions st !! sid = Some cached →
  getprop cached "_id" = VStr sid →
  MemPouch.docs (pouch st) !! sid = Some cur →
  getprop cached "_rev" ≠ getprop cur "_rev" →
  let st' := exec (Store.destroy sid report) st in
  log st' = log st ++ [PouchCall (Remove (Some cached)) (Some MemPouch.conflict);
                       Callback (Some MemPouch.conflict) NoValue] ∧
  MemPouch.docs (pouch st') = MemPouch.docs (pouch st) ∧
  sessions st' !! sid = None ∧
  log (exec (Store.get sid report) st') =
    log st' ++ [PouchCall (Get sid true) None; Callback None (Doc cur)].
Proof.
  intros Hf Hs Hid Hd Hrev st'.
  assert (Hst' : st' = mkStore (pouch st) (delete sid (sessions st)) (options st)
                         (timer_period st)
                         (log st ++ [PouchCall (Remove (Some cached)) (Some MemPouch.conflict);
                                     Callback (Some MemPouch.conflict) NoValue])).
  { subst st'. rewrite (destroy_exec_hit _ _ _ Hs).
    cbn [pouch_remove MemPouch.pouch]. unfold MemPouch.remove.
    rewrite guarded_reachable by done.
    rewrite (write_conflict _ _ cur sid); [done| |done|].
    - by rewrite getprop_insert_eq.
    - rewrite (getprop_insert_ne _ "_id" "_rev") by done.
      by rewrite getprop_insert_eq. }
  rewrite Hst'. cbn [log pouch sessions]. split; [done|]. split; [done|].
  split; [apply lookup_delete_eq|].
  rewrite get_exec_miss by (cbn [sessions]; apply lookup_delete_eq).
  cbn [log pouch pouch_get MemPouch.pouch]. unfold MemPouch.get.
  rewrite guarded_reachable by done. by rewrite Hd.
Qed.


End InMemoryRuns.

Section UnknownSession.
Context {DB : Type} `{adapter : Pouch DB}.
Implicit Types (st : SessionStore DB) (sid : string).


End UnknownSession.

(** ** Runs of the further properties *)

Section MoreRuns.
Import Examples Scenarios.
#[local] Existing Instance host.

Lemma get_reports_only_non_404_rejections_witness :
  inherited_name "abc" = false ∧
  is_Some (sessions with_abc !! "abc") ∧
  sessions (fresh MemPouch.empty) !! "abc" = None ∧
  (∃ l, log (exec (Store.get "abc" report) with_abc) = log with_abc ++ l ∧
        l = [Callback None (Doc (Store.stamp "abc" alice 1000))]) ∧
  (∃ l failure err value,
      log (exec (Store.get "abc" report) (fresh MemPouch.empty)) =
        log (fresh MemPouch.empty) ++ l ∧
      l = [PouchCall (Get "abc" true) failure; Callback err value]).
Proof.
  assert (Hhit : is_Some (sessions with_abc !! "abc")) by (by eexists; vm_compute).
  assert (Hmiss : sessions (fresh MemPouch.empty) !! "abc" = None) by by vm_compute.
  split; [by vm_compute|]. split; [exact Hhit|]. split; [exact Hmiss|]. split.
  - destruct (get_reports_only_non_404_rejections with_abc "abc")
      as (l & err & value & Hlog & _ & Hcached & _); [by vm_compute|].
    exists l. split; [exact Hlog|]. exact (Hcached Hhit).
  - destruct (get_reports_only_non_404_rejections (fresh MemPouch.empty) "abc")
      as (l & err & value & Hlog & _ & _ & Hread & _); [by vm_compute|].
    destruct (Hread Hmiss) as [failure Hl].
    exists l, failure, err, value. by split.
Defined.

Lemma destroy_always_uncaches_witness :
  let st' := exec (Store.destroy "abc" report) two_sessions in
  "xyz" ≠ "abc" ∧
  sessions st' !! "abc" = None ∧
  sessions st' !! "xyz" = sessions two_sessions !! "xyz".
Proof.
  intros st'.
  destruct (destroy_always_uncaches two_sessions "abc") as (Hgone & Hkept & _).
  split; [done|]. split; [exact Hgone|]. by apply Hkept.
Defined.

Lemma set_puts_the_record_it_caches_witness :
  let st' := exec (Store.set "xyz" bob 2000 report) with_abc in
  inherited_name "xyz" = false ∧
  ∃ doc failure,
    log st' = log with_abc ++ [PouchCall (Put doc) failure; Callback failure NoValue] ∧
    sessions st' !! "xyz" = Some doc ∧
    getprop doc "_rev" = VUndefined.
Proof.
  intros st'. split; [by vm_compute|].
  destruct (set_puts_the_record_it_caches with_abc "xyz" bob 2000)
    as (doc & failure & Hlog & Hdoc & Hrev); [by vm_compute|].
  exists doc, failure. split; [exact Hlog|]. split; [exact Hdoc|].
  rewrite Hrev. by vm_compute.
Defined.

Lemma clear_leaves_cached_records_witness :
  let st1 := exec (Store.clear report) with_abc in
  sessions with_abc !! "abc" = Some (Store.stamp "abc" alice 1000) ∧
  sessions st1 = sessions with_abc ∧
  log (exec (Store.get "abc" report) st1) =
    log st1 ++ [Callback None (Doc (Store.stamp "abc" alice 1000))].
Proof.
  split; [by vm_compute|].
  apply (clear_leaves_cached_records with_abc "abc"). by vm_compute.
Defined.

Lemma touch_reports_failed_lookup_witness :
  let st := fresh MemPouch.empty in
  let st' := exec (Store.touch "abc" alice 1000 1000 report) st in
  inherited_name "abc" = false ∧
  sessions st !! "abc" = None ∧
  pouch_get "abc" false (pouch st) = (inl MemPouch.not_found, MemPouch.empty) ∧
  log st' = log st ++ [PouchCall (Get "abc" false) (Some MemPouch.not_found);
                       Callback (Some MemPouch.not_found) NoValue] ∧
  sessions st' = sessions st.
Proof.
  split; [by vm_compute|]. split; [by vm_compute|]. split; [by vm_compute|].
  apply (touch_reports_failed_lookup (fresh MemPouch.empty) "abc" alice 1000 1000
           MemPouch.not_found MemPouch.empty); by vm_compute.
Defined.

Lemma scavenge_keeps_what_it_cannot_date_witness :
  let dateless := exec (Store.on_change dateless_abc) with_abc in
  ToNumber (getprop (deref module_without_idle (options two_sessions)) "maxIdle") = None ∧
  sessions (exec (Store.scavenge_tick module_without_idle 900000) two_sessions) =
    sessions two_sessions ∧
  (∃ sess, sessions dateless !! "abc" = Some sess ∧
           ToNumber (getprop sess "$ts") = None ∧
           sessions (exec (Store.scavenge_tick initial_module 900000) dateless) !! "abc" =
             Some sess).
Proof.
  intros dateless.
  assert (Hnan : ToNumber (getprop (deref module_without_idle (options two_sessions))
                             "maxIdle") = None) by by vm_compute.
  split; [exact Hnan|]. split.
  - destruct (scavenge_keeps_what_it_cannot_date module_without_idle two_sessions 900000)
      as [Hall _]. exact (Hall Hnan).
  - destruct (scavenge_keeps_what_it_cannot_date initial_module dateless 900000)
      as [_ Hone].
    destruct (sessions dateless !! "abc") as [sess|] eqn:E; [|by vm_compute in E].
    exists sess. split; [done|].
    assert (Hts : ToNumber (getprop sess "$ts") = None).
    { vm_compute in E. by injection E as <-. }
    split; [exact Hts|]. exact (Hone "abc" sess E Hts).
Defined.

Lemma change_event_keeps_cache_keys_witness :
  let st' := exec (Store.on_change deleted_abc) two_sessions in
  "xyz" ≠ Store.change_id deleted_abc ∧
  dom (sessions st') = dom (sessions two_sessions) ∧
  sessions st' !! "xyz" = sessions two_sessions !! "xyz".
Proof.
  intros st'.
  destruct (change_event_keeps_cache_keys two_sessions deleted_abc) as (Hdom & Hkept & _).
  split; [done|]. split; [exact Hdom|]. by apply Hkept.
Defined.

Lemma later_constructor_governs_earlier_scavenge_witness :
  let r1 := Store.new_SessionStore MemPouch.empty ∅ initial_module in
  let r2 := Store.new_SessionStore MemPouch.empty two_seconds r1.2 in
  options with_abc = options r1.1 ∧
  two_seconds !! "maxIdle" = Some (VNum 2000) ∧
  sessions with_abc !! "abc" = Some (Store.stamp "abc" alice 1000) ∧
  sessions (exec (Store.scavenge_tick r1.2 5000) with_abc) !! "abc" =
    Some (Store.stamp "abc" alice 1000) ∧
  sessions (exec (Store.scavenge_tick r2.2 5000) with_abc) !! "abc" = None.
Proof.
  intros r1 r2.
  assert (Hs : sessions with_abc !! "abc" = Some (Store.stamp "abc" alice 1000))
    by by vm_compute.
  split; [done|]. split; [done|]. split; [exact Hs|]. split; [by vm_compute|].
  apply (later_constructor_governs_earlier_scavenge MemPouch.empty MemPouch.empty
           ∅ two_seconds initial_module with_abc "abc"
           (Store.stamp "abc" alice 1000) 5000 1000 2000);
    [done | done | exact Hs | by vm_compute].
Defined.

Lemma operations_keep_cache_stamped_witness :
  stamped (sessions (fresh MemPouch.empty)) ∧
  stamped (sessions with_abc).
Proof.
  assert (H0 : stamped (sessions (fresh MemPouch.empty))) by apply stamped_empty.
  split; [exact H0|].
  destruct (operations_keep_cache_stamped (fresh MemPouch.empty) H0) as [Hset _].
  exact (Hset "abc" alice 1000%Z).
Defined.

Lemma get_unknown_is_absent_witness :
  let st := fresh MemPouch.empty in
  inherited_name "abc" = false ∧
  MemPouch.faults (pouch st) = [] ∧
  sessions st !! "abc" = None ∧
  MemPouch.docs (pouch st) !! "abc" = None ∧
  log (exec (Store.get "abc" report) st) =
  log st ++ [PouchCall (Get "abc" true) (Some MemPouch.not_found); Callback None NoValue].
Proof.
  split; [by vm_compute|].
  split; [done|]. split; [by vm_compute|]. split; [by vm_compute|].
  apply (get_unknown_is_absent (fresh MemPouch.empty) "abc"); by vm_compute.
Defined.

Lemma length_and_all_report_the_database_witness :
  MemPouch.faults (pouch two_sessions) = [] ∧
  size (MemPouch.docs (pouch two_sessions)) = 2 ∧
  log (exec (Store.length report) two_sessions) =
    log two_sessions ++ [PouchCall (AllDocs (mkAllDocsOpts false false)) None;
                         Callback None (Count (size (MemPouch.docs (pouch two_sessions))))].
Proof.
  split; [by vm_compute|]. split; [by vm_compute|].
  apply (length_and_all_report_the_database two_sessions). by vm_compute.
Defined.


Lemma destroy_with_stale_revision_keeps_document_witness :
  let cached := Store.stamp "abc" alice 1000 in
  let cur := <["_rev" := VNum 1]> cached in
  let st' := exec (Store.destroy "abc" report) with_abc in
  sessions with_abc !! "abc" = Some cached ∧
  MemPouch.docs (pouch with_abc) !! "abc" = Some cur ∧
  getprop cached "_rev" ≠ getprop cur "_rev" ∧
  log st' = log with_abc ++ [PouchCall (Remove (Some cached)) (Some MemPouch.conflict);
                             Callback (Some MemPouch.conflict) NoValue] ∧
  MemPouch.docs (pouch st') = MemPouch.docs (pouch with_abc) ∧
  sessions st' !! "abc" = None ∧
  log (exec (Store.get "abc" report) st') =
    log st' ++ [PouchCall (Get "abc" true) None; Callback None (Doc cur)].
Proof.
  intros cached cur st'.
  assert (Hrev : getprop cached "_rev" ≠ getprop cur "_rev") by by vm_compute.
  split; [by vm_compute|]. split; [by vm_compute|]. split; [exact Hrev|].
  apply (destroy_with_stale_revision_keeps_document with_abc "abc" cached cur);
    first [exact Hrev | by vm_compute].
Defined.


Lemma operations_call_back_once_witness :
  inherited_name "abc" = false ∧
  (∃ err, callbacks (log (exec (Store.destroy "abc" report) with_abc)) =
          callbacks (log with_abc) ++ [Callback err NoValue]) ∧
  (∃ err, callbacks (log (exec (Store.set "abc" bob 2000 report) with_abc)) =
          callbacks (log with_abc) ++ [Callback err NoValue]).
Proof.
  assert (Hplain : inherited_name "abc" = false) by by vm_compute.
  destruct (operations_call_back_once with_abc "abc" bob 2000 Hplain)
    as (_ & Hset & Hdestroy & _).
  split; [exact Hplain|]. split; [exact Hdestroy | exact Hset].
Defined.


End MoreRuns.
